(** * excel_csv_processor: a shallow embedding of [ExcelCSVProcessor]

    The development follows [src/excel_csv_processor.py]:
    - Python [str] values are sequences of Unicode code points;
    - the CSV grid handled by [fill_answer_instruction_column] is a list of
      rows, each a list of [str] cells;
    - an openpyxl worksheet is a finite map from (row, column) to stored
      values together with its merged ranges;
    - a pandas data frame is a list of named columns;
    - the output directory is a finite map from file names to CSV contents,
      and Python exceptions are an explicit [Raise] result.

    Definitions come first, the statements proved about them follow. *)

From stdpp Require Import gmap list strings.
From Stdlib Require Import NArith ZArith Lia.

Set Default Proof Using "Type".

(* ===================================================================== *)
(** * Python strings *)
(* ===================================================================== *)

Module PyStr.

(** A Python [str]: the sequence of its code points. *)
Abbreviation str := (list N).

(** An ASCII literal as a [str] (each byte is its own code point). *)
Definition u (s : string) : str :=
  Ascii.N_of_ascii <$> String.list_ascii_of_string s.

(** The characters [str.strip()] removes when called without argument:
    those for which [str.isspace] holds. *)
Definition is_space (c : N) : bool :=
  ((0x9 <=? c) && (c <=? 0xD) || (0x1C <=? c) && (c <=? 0x20)
   || (c =? 0x85) || (c =? 0xA0) || (c =? 0x1680)
   || (0x2000 <=? c) && (c <=? 0x200A)
   || (c =? 0x2028) || (c =? 0x2029) || (c =? 0x202F) || (c =? 0x205F)
   || (c =? 0x3000))%N.

Fixpoint lstrip (s : str) : str :=
  match s with
  | [] => []
  | c :: s' => if is_space c then lstrip s' else s
  end.

Definition rstrip (s : str) : str := reverse (lstrip (reverse s)).

(** [s.strip()] *)
Definition strip (s : str) : str := rstrip (lstrip s).

(** Truth value of a string in a condition: non-empty. *)
Definition truthy (s : str) : bool :=
  match s with [] => false | _ :: _ => true end.

Fixpoint starts_with (p s : str) : bool :=
  match p, s with
  | [], _ => true
  | _ :: _, [] => false
  | a :: p', b :: s' => (a =? b)%N && starts_with p' s'
  end.

(** [p in s] on strings: [p] occurs as a contiguous substring of [s]. *)
Fixpoint contains (p s : str) : bool :=
  starts_with p s ||
  match s with
  | [] => false
  | _ :: s' => contains p s'
  end.

(** [sep.join(parts)] *)
Fixpoint join (sep : str) (parts : list str) : str :=
  match parts with
  | [] => []
  | [p] => p
  | p :: rest => p ++ sep ++ join sep rest
  end.

(** [cell and str(cell).strip()] for a string cell. *)
Definition nonblank (cell : str) : bool := truthy cell && truthy (strip cell).

End PyStr.

Import PyStr.

(* ===================================================================== *)
(** * The instructions-column filler *)
(* ===================================================================== *)

Module Fill.

Abbreviation row := (list str).
Abbreviation grid := (list (list str)).

(** The marker [答题说明]. *)
Definition ANSWER_INSTRUCTION : str := [0x7B54; 0x9898; 0x8BF4; 0x660E]%N.

(** [enumerate(l)] *)
Definition enumerate {A} (l : list A) : list (nat * A) := imap pair l.

(** Lines 77-81: the index of the first header cell that is non-empty and
    contains the marker, counted from [i]; [None] stands for the [-1] the
    code keeps when the loop finds nothing. *)
Fixpoint find_instruction_col (i : nat) (header_row : row) : option nat :=
  match header_row with
  | [] => None
  | header :: rest =>
      if truthy header && contains ANSWER_INSTRUCTION header then Some i
      else find_instruction_col (S i) rest
  end.

(** Lines 89-92: the inner loop over the cells of one row. *)
Definition scan_cells (idx r_idx : nat) (current : row) (acc : nat) : nat :=
  foldl (λ acc '(c_idx, cell),
           if negb (c_idx =? idx) && nonblank cell
           then (if acc <? r_idx + 1 then r_idx + 1 else acc)
           else acc)
        acc (enumerate current).

(** Lines 87-92: [max_rows_other_cols] before the fallback. *)
Definition scan_rows (idx : nat) (csv_data : grid) : nat :=
  foldl (λ acc '(r_idx, current), scan_cells idx r_idx current acc)
        0 (enumerate csv_data).

(** Lines 87-96: [max_rows_other_cols] as the fill loop and the final
    slice use it. *)
Definition max_rows_other_cols (idx : nat) (csv_data : grid) : nat :=
  let m := scan_rows idx csv_data in
  if m =? 0 then length csv_data else m.

(** Lines 108-109: [while len(current_row) <= idx: current_row.append("")]. *)
Definition pad_row (idx : nat) (current_row : row) : row :=
  current_row ++ replicate (S idx - length current_row) [].

(** Lines 104-116: one iteration of the fill loop; the state is the grid
    being mutated and [last_instruction]. *)
Definition fill_step (idx : nat) (st : grid * str) (row_index : nat)
  : grid * str :=
  let '(csv_data, last_instruction) := st in
  match csv_data !! row_index with
  | None => st
  | Some current_row =>
      let current_row := pad_row idx current_row in
      let current_cell_value := default [] (current_row !! idx) in
      if nonblank current_cell_value then
        (<[row_index := current_row]> csv_data, current_cell_value)
      else if truthy last_instruction then
        (<[row_index := <[idx := last_instruction]> current_row]> csv_data,
         last_instruction)
      else (<[row_index := current_row]> csv_data, last_instruction)
  end.

(** Lines 102-116: [for row_index in range(1, max_rows_other_cols)]. *)
Definition fill_loop (idx max_rows : nat) (csv_data : grid) : grid * str :=
  foldl (fill_step idx) (csv_data, []) (seq 1 (max_rows - 1)).

(** Lines 62-119. *)
Definition fill_answer_instruction_column (csv_data : grid) : grid :=
  match csv_data with
  | [] | [_] => csv_data
  | header_row :: _ =>
      match find_instruction_col 0 header_row with
      | None => csv_data
      | Some idx =>
          let max_rows := max_rows_other_cols idx csv_data in
          let '(filled, _) := fill_loop idx max_rows csv_data in
          (λ r, take (length header_row) r) <$> take max_rows filled
      end
  end.

(** Row [r] of the grid holds, outside column [idx], a cell whose trimmed
    string is not empty. *)
Definition other_content (idx : nat) (csv_data : grid) (r : nat) : Prop :=
  ∃ (current : row) (c : nat) (cell : str),
    csv_data !! r = Some current ∧ current !! c = Some cell
    ∧ c ≠ idx ∧ strip cell ≠ [].

(** ** Row-by-row reading of the loops

    The same computation written by recursion on the rows; the lemmas
    [scan_rows_last_true] and [fill_loop_from] relate both forms. *)

(** Some cell of the row outside column [idx] is non-blank ([k] is the
    column index of the first cell). *)
Fixpoint has_other (k idx : nat) (current : row) : bool :=
  match current with
  | [] => false
  | cell :: rest =>
      (negb (k =? idx) && nonblank cell) || has_other (S k) idx rest
  end.

(** One more than the position of the last [true], or [0]. *)
Fixpoint last_true (bs : list bool) : nat :=
  match bs with
  | [] => 0
  | b :: rest =>
      match last_true rest with
      | 0 => if b then 1 else 0
      | S m => S (S m)
      end
  end.

(** The effect of one iteration on its row, and the next
    [last_instruction]. *)
Definition fill_row (idx : nat) (last_instruction : str) (current : row)
  : row * str :=
  let padded := pad_row idx current in
  let value := default [] (padded !! idx) in
  if nonblank value then (padded, value)
  else if truthy last_instruction
       then (<[idx := last_instruction]> padded, last_instruction)
       else (padded, last_instruction).

Fixpoint fill_rows (idx : nat) (last_instruction : str) (rows : grid)
  : grid :=
  match rows with
  | [] => []
  | current :: rest =>
      let '(current', last') := fill_row idx last_instruction current in
      current' :: fill_rows idx last' rest
  end.

(** [last_instruction] is empty until the first non-blank cell and
    non-blank from then on. *)
Definition last_ok (last : str) : Prop := last = [] ∨ nonblank last = true.

(** The cell of a row in column [idx], read as empty when the row is too
    short, and the [last_instruction] a finished row hands to the next. *)
Definition cell_at (idx : nat) (current : row) : str :=
  default [] (current !! idx).

Definition carry (idx : nat) (current : row) : str :=
  if nonblank (cell_at idx current) then cell_at idx current else [].

(** The header text contains the marker as a contiguous substring. *)
Definition has_marker (header : str) : Prop :=
  ∃ pre post : str, header = pre ++ ANSWER_INSTRUCTION ++ post.

End Fill.

Import Fill.

(* ===================================================================== *)
(** * Worksheets and the merged-cell resolver *)
(* ===================================================================== *)

Module Sheet.

(** An openpyxl [CellRange]: the bounds of a merged range (1-based,
    inclusive). *)
Record CellRange : Type := {
  min_row : Z;
  min_col : Z;
  max_row : Z;
  max_col : Z;
}.

(** [cell.coordinate in merged_range] *)
Definition in_range (r c : Z) (mr : CellRange) : bool :=
  ((min_row mr <=? r) && (r <=? max_row mr)
   && (min_col mr <=? c) && (c <=? max_col mr))%Z.

(** The part of a worksheet the processor reads.  [V] is the type of
    stored cell values; an address without an entry in [cells] is a cell
    whose [value] is [None]. *)
Record Worksheet (V : Type) : Type := {
  cells : gmap (Z * Z) V;
  merged_ranges : list CellRange;
  ws_max_row : Z;
  ws_max_column : Z;
}.
Arguments cells {V} _.
Arguments merged_ranges {V} _.
Arguments ws_max_row {V} _.
Arguments ws_max_column {V} _.

Section Resolver.
Context {V : Type}.

(** [worksheet.cell(row=r, column=c).value] *)
Definition cell_value (ws : Worksheet V) (r c : Z) : option V :=
  cells ws !! (r, c).

(** Lines 54-58: the loop over the merged ranges, leaving at the first
    range that contains the address. *)
Fixpoint first_containing (r c : Z) (ranges : list CellRange)
  : option CellRange :=
  match ranges with
  | [] => None
  | mr :: rest =>
      if in_range r c mr then Some mr else first_containing r c rest
  end.

(** Lines 39-60. *)
Definition get_merged_cell_value (ws : Worksheet V) (r c : Z) : option V :=
  match first_containing r c (merged_ranges ws) with
  | Some mr => cell_value ws (min_row mr) (min_col mr)
  | None => cell_value ws r c
  end.

(** The sheet with the value stored at [(r, c)] replaced by [v]. *)
Definition with_value (ws : Worksheet V) (r c : Z) (v : V) : Worksheet V :=
  {| cells := <[(r, c) := v]> (cells ws);
     merged_ranges := merged_ranges ws;
     ws_max_row := ws_max_row ws;
     ws_max_column := ws_max_column ws |}.

(** [str(cell_value)] for the stored values. *)
Variable py_str : V → str.

(** Lines 156-159. *)
Definition cell_text (v : option V) : str :=
  match v with
  | None => []
  | Some x => py_str x
  end.

(** Lines 146-163: the grid built from rows [1..max_row] and columns
    [1..max_column]. *)
Definition flatten (ws : Worksheet V) : grid :=
  (λ r, (λ c, cell_text (get_merged_cell_value ws r c))
          <$> seqZ 1 (ws_max_column ws))
    <$> seqZ 1 (ws_max_row ws).
End Resolver.

End Sheet.

Import Sheet.

(* ===================================================================== *)
(** * Data frames and the labeled-field merger *)
(* ===================================================================== *)

Module Frame.

(** A value held by a data frame: [NaN] is the missing-value marker
    ([pd.notna] is false on it), [Val text] any other value, [text] being
    what [str] returns for it. *)
Inductive cell : Type :=
  | NaN
  | Val (text : str).

Definition notna (v : cell) : bool :=
  match v with NaN => false | Val _ => true end.

Definition py_str (v : cell) : str :=
  match v with NaN => u "nan" | Val text => text end.

(** A data frame, column-major as pandas stores it: the number of rows and
    the named columns in order.  [pd.read_csv] never yields two columns of
    one name; lookups by name take the first. *)
Record DataFrame : Type := {
  nrows : nat;
  columns : list (str * list cell);
}.

Definition column_names (df : DataFrame) : list str := (columns df).*1.

(** [name in df.columns] *)
Definition has_column (name : str) (df : DataFrame) : bool :=
  bool_decide (name ∈ column_names df).

(** [row[name]] for the row at position [i] of [df.iterrows()]. *)
Definition row_get (df : DataFrame) (i : nat) (name : str) : cell :=
  match list_find (λ p, p.1 = name) (columns df) with
  | Some (_, (_, values)) => default NaN (values !! i)
  | None => NaN
  end.

(** [df[name] = values]: an existing column of that name is overwritten in
    place, otherwise the column is added after the others. *)
Fixpoint set_column (name : str) (values : list cell)
    (cols : list (str * list cell)) : list (str * list cell) :=
  match cols with
  | [] => [(name, values)]
  | (n, vs) :: rest =>
      if decide (n = name) then (n, values) :: rest
      else (n, vs) :: set_column name values rest
  end.

(** Column names and section labels. *)
Definition COL_MATERIAL : str := [0x6750; 0x6599; 0x5185; 0x5BB9]%N.
Definition COL_INSTRUCTION : str := [0x7B54; 0x9898; 0x8BF4; 0x660E]%N.
Definition COL_TYPE : str := [0x2A; 0x9898; 0x76EE; 0x7C7B; 0x578B]%N.
Definition COL_STEM : str := [0x2A; 0x9898; 0x5E72]%N.
Definition COL_ANSWER : str := [0x2A; 0x6B63; 0x786E; 0x7B54; 0x6848]%N.
Definition COL_QUESTION_INFO : str := [0x9898; 0x76EE; 0x4FE1; 0x606F]%N.
Definition OPTION_PREFIX : str := [0x9009; 0x9879]%N.

Definition LABEL_MATERIAL : str :=
  [0x6750; 0x6599; 0x5185; 0x5BB9; 0xFF1A; 0xA]%N.
Definition LABEL_INSTRUCTION : str :=
  [0x7B54; 0x9898; 0x8BF4; 0x660E; 0xFF1A; 0xA]%N.
Definition LABEL_TYPE : str := [0x9898; 0x76EE; 0x7C7B; 0x578B; 0xFF1A; 0xA]%N.
Definition LABEL_STEM : str := [0x9898; 0x5E72; 0xFF1A; 0xA]%N.
Definition LABEL_ANSWER : str :=
  [0x6B63; 0x786E; 0x7B54; 0x6848; 0xFF1A; 0xA]%N.
Definition LABEL_OPTIONS : str := [0x9009; 0x9879; 0xFF1A; 0xA]%N.

(** Line 198. *)
Definition required_columns : list str :=
  [COL_MATERIAL; COL_TYPE; COL_STEM; COL_ANSWER].

(** Line 199. *)
Definition missing_columns (df : DataFrame) : list str :=
  filter (λ col, col ∉ column_names df) required_columns.

(** Line 205: [选项A] to [选项K]. *)
Definition option_columns : list str :=
  (λ i, OPTION_PREFIX ++ [N.of_nat (65 + i)]) <$> seq 0 11.

(** [pd.notna(v) and str(v).strip()] *)
Definition filled (v : cell) : bool := notna v && truthy (strip (py_str v)).

(** Lines 215-232: one labeled section, when the value is present and not
    blank. *)
Definition labeled (label : str) (v : cell) : list str :=
  if filled v then [label ++ strip (py_str v)] else [].

(** Lines 238-239: [option_col[-1]] followed by the value. *)
Definition option_line (option_col : str) (v : cell) : str :=
  drop (length option_col - 1) option_col ++ u ". " ++ strip (py_str v).

(** Lines 235-239. *)
Definition option_lines (df : DataFrame) (i : nat) : list str :=
  option_col ← option_columns;
  if has_column option_col df && filled (row_get df i option_col)
  then [option_line option_col (row_get df i option_col)] else [].

(** Lines 212-242: [info_parts] of the row at position [i]. *)
Definition info_parts (df : DataFrame) (i : nat) : list str :=
  labeled LABEL_MATERIAL (row_get df i COL_MATERIAL)
  ++ (if has_column COL_INSTRUCTION df
      then labeled LABEL_INSTRUCTION (row_get df i COL_INSTRUCTION) else [])
  ++ labeled LABEL_TYPE (row_get df i COL_TYPE)
  ++ labeled LABEL_STEM (row_get df i COL_STEM)
  ++ labeled LABEL_ANSWER (row_get df i COL_ANSWER)
  ++ (let options := option_lines df i in
      if bool_decide (options = []) then []
      else [LABEL_OPTIONS ++ join [0xA]%N options]).

(** Line 245. *)
Definition question_info (df : DataFrame) (i : nat) : str :=
  let parts := info_parts df i in
  if bool_decide (parts = []) then []
  else join [0xA; 0xA]%N parts.

(** Lines 208-246. *)
Definition question_info_list (df : DataFrame) : list str :=
  question_info df <$> seq 0 (nrows df).

(** Lines 197-249 on the frame: [None] when required columns are missing
    (the function returns [False] before anything is written), otherwise
    the frame with the new column. *)
Definition merge_frame (df : DataFrame) : option DataFrame :=
  if bool_decide (missing_columns df = []) then
    Some {| nrows := nrows df;
            columns := set_column COL_QUESTION_INFO
                         (Val <$> question_info_list df) (columns df) |}
  else None.

(** The option columns [选项A] and [选项C], and a column that contributes
    no line for the row at position [i]. *)
Definition OPTION_A : str := OPTION_PREFIX ++ u "A".
Definition OPTION_C : str := OPTION_PREFIX ++ u "C".

Definition populated (df : DataFrame) (i : nat) (col : str) : bool :=
  has_column col df && filled (row_get df i col).

(** A frame of two records used in the examples: the first is complete
    with options A and C, the second holds nothing but blanks. *)
Definition sample_frame : DataFrame :=
  {| nrows := 2;
     columns :=
       [ (COL_MATERIAL, [Val (u " text "); NaN]);
         (COL_INSTRUCTION, [Val (u "pick one"); NaN]);
         (COL_TYPE, [Val (u "single"); NaN]);
         (COL_STEM, [Val (u "1+1?"); Val (u "  ")]);
         (COL_ANSWER, [Val (u "A"); NaN]);
         (OPTION_A, [Val (u "2"); NaN]);
         (OPTION_PREFIX ++ u "B", [NaN; Val []]);
         (OPTION_C, [Val (u "3"); NaN]) ] |}.

(** The same frame with a column already named [题目信息]. *)
Definition sample_frame_with_info : DataFrame :=
  {| nrows := 2;
     columns := columns sample_frame
                ++ [(COL_QUESTION_INFO, [Val (u "old"); Val (u "older")]);
                    (u "note", [Val (u "n1"); Val (u "n2")])] |}.

End Frame.

Import Frame.

(* ===================================================================== *)
(** * The per-file workflow *)
(* ===================================================================== *)

Module Pipeline.

(** The outcome of a call that may raise: [Raise msg] is an exception whose
    [str] is [msg]. *)
Inductive result (A : Type) : Type :=
  | Ok (a : A)
  | Raise (msg : str).
Arguments Ok {A} _.
Arguments Raise {A} _.

(** The output directory: the CSV files it holds, each as the rows written
    to it, and the names that cannot be opened for writing (read-only, or
    held open by another program). *)
Record World : Type := {
  files : gmap str grid;
  locked : gset str;
}.

(** [open(path, 'w')] followed by writing the rows. *)
Definition write_csv (w : World) (path : str) (content : grid)
  : result World :=
  if bool_decide (path ∈ locked w) then Raise (u "Permission denied")
  else Ok {| files := <[path := content]> (files w); locked := locked w |}.

(** [Path.rename(target)], as on Unix: an existing target is replaced. *)
Definition rename (w : World) (src dst : str) : result World :=
  match files w !! src with
  | None => Raise (u "No such file or directory")
  | Some content =>
      Ok {| files := <[dst := content]> (delete src (files w));
            locked := locked w |}
  end.

(** Lines 318-319: [if path.exists(): path.unlink()]. *)
Definition unlink_if_exists (w : World) (path : str) : World :=
  {| files := delete path (files w); locked := locked w |}.

(** The summary returned by [process_all_files], together with the output
    directory while the run is under way. *)
Record RunState : Type := {
  world : World;
  success : nat;
  errors : list str;
}.

Definition MSG_CONVERT_FAILED : str :=
  [0x45; 0x78; 0x63; 0x65; 0x6C; 0x8F6C; 0x43; 0x53; 0x56; 0x5931; 0x8D25;
   0x3A; 0x20]%N.
Definition MSG_FILE : str := [0x5904; 0x7406; 0x6587; 0x4EF6; 0x20]%N.
Definition MSG_FAILED : str := [0x20; 0x65F6; 0x51FA; 0x9519; 0x3A; 0x20]%N.
Definition MSG_NO_INPUT_DIR : str :=
  [0x8F93; 0x5165; 0x76EE; 0x5F55; 0x4E0D; 0x5B58; 0x5728]%N.
Definition MSG_NO_FILES : str :=
  [0x672A; 0x627E; 0x5230; 0x45; 0x78; 0x63; 0x65; 0x6C; 0x6587; 0x4EF6]%N.

Section Workflow.
(** Stored cell values of a workbook and their [str]. *)
Context {V : Type}.
Variable cell_str : V → str.
(** [pd.read_csv] on the rows of a CSV file, and the rows [df.to_csv]
    writes: the parser and printer of pandas are taken as given. *)
Variable read_csv : grid → result DataFrame.
Variable to_csv : DataFrame → grid.

(** An input file matched by [glob('*.xlsx')]: its name, its stem and
    what [load_workbook(...).active] gives (or raises). *)
Record XlsxFile : Type := {
  name : str;
  stem : str;
  workbook : result (Worksheet V);
}.

(** Lines 121-178. *)
Definition convert_xlsx_to_csv (w : World) (xlsx : XlsxFile)
    (csv_path : str) : World * bool :=
  match workbook xlsx with
  | Raise _ => (w, false)
  | Ok worksheet =>
      let csv_data :=
        fill_answer_instruction_column (flatten cell_str worksheet) in
      match write_csv w csv_path csv_data with
      | Raise _ => (w, false)
      | Ok w' => (w', true)
      end
  end.

(** Lines 192-255: the body of the [try] of
    [merge_columns_to_question_info]. *)
Definition merge_body (w : World) (csv_path output_path : str)
  : World * result bool :=
  match files w !! csv_path with
  | None => (w, Raise (u "No such file or directory"))
  | Some content =>
      match read_csv content with
      | Raise msg => (w, Raise msg)
      | Ok df =>
          match merge_frame df with
          | None => (w, Ok false)
          | Some df' =>
              match write_csv w output_path (to_csv df') with
              | Raise msg => (w, Raise msg)
              | Ok w' => (w', Ok true)
              end
          end
      end
  end.

(** Lines 180-259: any exception of the body is caught and turned into
    [False]. *)
Definition merge_columns_to_question_info (w : World)
    (csv_path output_path : str) : World * bool :=
  match merge_body w csv_path output_path with
  | (w', Ok b) => (w', b)
  | (w', Raise _) => (w', false)
  end.

Definition temp_name (xlsx : XlsxFile) : str :=
  u "temp_" ++ stem xlsx ++ u ".csv".
Definition processed_name (xlsx : XlsxFile) : str :=
  stem xlsx ++ u "_processed.csv".
Definition plain_name (xlsx : XlsxFile) : str := stem xlsx ++ u ".csv".

(** Lines 294-324: the body of the loop over the input files. *)
Definition process_file (st : RunState) (xlsx : XlsxFile) : RunState :=
  let temp_csv_path := temp_name xlsx in
  match convert_xlsx_to_csv (world st) xlsx temp_csv_path with
  | (w1, false) =>
      {| world := w1; success := success st;
         errors := errors st ++ [MSG_CONVERT_FAILED ++ name xlsx] |}
  | (w1, true) =>
      let final_csv_path := processed_name xlsx in
      match merge_columns_to_question_info w1 temp_csv_path final_csv_path
      with
      | (w2, true) =>
          {| world := unlink_if_exists w2 temp_csv_path;
             success := success st + 1; errors := errors st |}
      | (w2, false) =>
          match rename w2 temp_csv_path (plain_name xlsx) with
          | Raise msg =>
              {| world := w2; success := success st;
                 errors := errors st
                           ++ [MSG_FILE ++ name xlsx ++ MSG_FAILED ++ msg] |}
          | Ok w3 =>
              {| world := unlink_if_exists w3 temp_csv_path;
                 success := success st + 1; errors := errors st |}
          end
      end
  end.

(** What [process_all_files] returns. *)
Record Summary : Type := {
  sum_success : nat;
  sum_total : nat;
  sum_errors : list str;
}.

(** Lines 261-338.  [input_dir] is [None] when the input directory does
    not exist, otherwise the files found there, in the order of the
    listing. *)
Definition process_all_files (input_dir : option (list XlsxFile))
    (w : World) : World * Summary :=
  match input_dir with
  | None =>
      (w, {| sum_success := 0; sum_total := 0;
             sum_errors := [MSG_NO_INPUT_DIR] |})
  | Some [] =>
      (w, {| sum_success := 0; sum_total := 0;
             sum_errors := [MSG_NO_FILES] |})
  | Some xlsx_files =>
      let st := foldl process_file
                  {| world := w; success := 0; errors := [] |} xlsx_files in
      (world st, {| sum_success := success st;
                    sum_total := length xlsx_files;
                    sum_errors := errors st |})
  end.
End Workflow.

Arguments XlsxFile : clear implicits.
Arguments name {V} _.
Arguments stem {V} _.
Arguments workbook {V} _.

(** Lines 350-356: the closing message of [main], by the branch taken:
    every file succeeded, some did, none did. *)
Inductive Verdict : Type :=
  | AllSucceeded
  | PartlySucceeded
  | NoneSucceeded.

Definition main_verdict (result : Summary) : Verdict :=
  if (sum_success result =? sum_total result) && (0 <? sum_total result)
  then AllSucceeded
  else if 0 <? sum_success result then PartlySucceeded
  else NoneSucceeded.

(** The conversion of a file succeeds: its workbook loads and the temporary
    file can be written. *)
Definition convertible {V} (w : World) (xlsx : XlsxFile V) : bool :=
  match workbook xlsx with
  | Ok _ => bool_decide (temp_name xlsx ∉ locked w)
  | Raise _ => false
  end.

(** The entry of the error list for a file whose conversion failed. *)
Definition convert_error {V} (xlsx : XlsxFile V) : str :=
  MSG_CONVERT_FAILED ++ name xlsx.

(** ** Instances used in the examples

    A plain reading of CSV rows as a frame and back: the first row names
    the columns, an empty or absent cell is a missing value, any other cell
    is kept as text; no rows at all is an error of the parser. *)
Definition plain_read_csv (content : grid) : result DataFrame :=
  match content with
  | [] => Raise (u "No columns to parse from file")
  | header_row :: records =>
      Ok {| nrows := length records;
            columns :=
              imap (λ j col,
                      (col, (λ r : row,
                               match r !! j with
                               | Some (c :: text) => Val (c :: text)
                               | _ => NaN
                               end) <$> records))
                   header_row |}
  end.

Definition plain_to_csv (df : DataFrame) : grid :=
  column_names df
  :: ((λ i, (λ col : str * list cell,
               match col.2 !! i with
               | Some (Val text) => text
               | _ => []
               end) <$> columns df)
        <$> seq 0 (nrows df)).

(** A sheet with the four required headers and one record. *)
Definition question_sheet : Worksheet str :=
  {| cells :=
       list_to_map
         [ ((1, 1)%Z, COL_MATERIAL); ((1, 2)%Z, COL_TYPE);
           ((1, 3)%Z, COL_STEM); ((1, 4)%Z, COL_ANSWER);
           ((2, 1)%Z, u "text"); ((2, 2)%Z, u "single");
           ((2, 3)%Z, u "1+1?"); ((2, 4)%Z, u "A") ];
     merged_ranges := [];
     ws_max_row := 2;
     ws_max_column := 4 |}.

(** A sheet without the required headers. *)
Definition notes_sheet : Worksheet str :=
  {| cells :=
       list_to_map
         [ ((1, 1)%Z, u "id"); ((1, 2)%Z, ANSWER_INSTRUCTION);
           ((2, 1)%Z, u "1"); ((2, 2)%Z, u "X");
           ((3, 1)%Z, u "2") ];
     merged_ranges := [];
     ws_max_row := 3;
     ws_max_column := 2 |}.

Definition question_file : XlsxFile str :=
  {| name := u "q.xlsx"; stem := u "q"; workbook := Ok question_sheet |}.

Definition notes_file : XlsxFile str :=
  {| name := u "n.xlsx"; stem := u "n"; workbook := Ok notes_sheet |}.

(** A file that is not a workbook. *)
Definition broken_file : XlsxFile str :=
  {| name := u "b.xlsx"; stem := u "b";
     workbook := Raise (u "File is not a zip file") |}.

(** An empty output directory, and one where [q_processed.csv] cannot be
    written. *)
Definition empty_world : World := {| files := ∅; locked := ∅ |}.

Definition locked_world : World :=
  {| files := ∅; locked := {[ u "q_processed.csv" ]} |}.

Definition start (w : World) : RunState :=
  {| world := w; success := 0; errors := [] |}.

End Pipeline.

Import Pipeline.

(* ===================================================================== *)
(** * Properties *)
(* ===================================================================== *)

(** ** The definitions at work *)

Example strip_spaces :
  strip (u "  a b " ++ [0x3000; 0xA]%N) = u "a b".
Proof. reflexivity. Qed.

Example strip_blank : strip [0x3000; 0x20; 0x9]%N = [].
Proof. reflexivity. Qed.

Example marker_inside_header :
  find_instruction_col 0
    [u "id"; []; u "*" ++ ANSWER_INSTRUCTION ++ u "(x)"; ANSWER_INSTRUCTION]
  = Some 2.
Proof. reflexivity. Qed.

Example join_sections : join (u ", ") [u "a"; u "b"; u "c"] = u "a, b, c".
Proof. reflexivity. Qed.

Example flatten_question_sheet :
  flatten id question_sheet
  = [[COL_MATERIAL; COL_TYPE; COL_STEM; COL_ANSWER];
     [u "text"; u "single"; u "1+1?"; u "A"]].
Proof. by vm_compute. Qed.

Example run_two_files :
  let '(w, summary) :=
    process_all_files id plain_read_csv plain_to_csv
      (Some [question_file; notes_file]) empty_world in
  dom (files w) = {[ u "q_processed.csv"; u "n.csv" ]}
  ∧ summary = {| sum_success := 2; sum_total := 2; sum_errors := [] |}.
Proof. by vm_compute. Qed.

Example run_without_input_directory :
  (process_all_files id plain_read_csv plain_to_csv None empty_world).2
  = {| sum_success := 0; sum_total := 0; sum_errors := [MSG_NO_INPUT_DIR] |}.
Proof. reflexivity. Qed.

(** ** The scan for the row bound *)

Section ScanFacts.
Context (idx : nat).

Lemma enumerate_shift {A} (k : nat) (x : A) (l : list A) :
  imap (λ i y, (k + i, y)) (x :: l)
  = (k, x) :: imap (λ i y, (S k + i, y)) l.
Proof.
  simpl. rewrite Nat.add_0_r. f_equal.
  apply imap_ext. intros i y _. simpl. f_equal. lia.
Qed.

Lemma scan_cells_from (k r_idx : nat) (current : row) (acc : nat) :
  foldl (λ acc '(c_idx, cell),
           if negb (c_idx =? idx) && nonblank cell
           then (if acc <? r_idx + 1 then r_idx + 1 else acc)
           else acc)
        acc (imap (λ i y, (k + i, y)) current)
  = if has_other k idx current then acc `max` (r_idx + 1) else acc.
Proof.
  revert k acc. induction current as [|cell rest IH]; intros k acc.
  - reflexivity.
  - rewrite enumerate_shift. cbn [foldl has_other]. rewrite IH.
    destruct (negb (k =? idx) && nonblank cell) eqn:Hc; cbn [orb].
    + destruct (acc <? r_idx + 1) eqn:Hlt.
      * apply Nat.ltb_lt in Hlt. destruct (has_other (S k) idx rest); lia.
      * apply Nat.ltb_ge in Hlt. destruct (has_other (S k) idx rest); lia.
    + reflexivity.
Qed.

Lemma scan_cells_spec (r_idx : nat) (current : row) (acc : nat) :
  scan_cells idx r_idx current acc
  = if has_other 0 idx current then acc `max` (r_idx + 1) else acc.
Proof. apply (scan_cells_from 0). Qed.

Lemma last_true_le (bs : list bool) : last_true bs ≤ length bs.
Proof.
  induction bs as [|b rest IH]; simpl; [lia|].
  destruct (last_true rest); [destruct b|]; lia.
Qed.

Lemma scan_rows_from (k acc : nat) (rows : grid) :
  foldl (λ acc '(r_idx, current), scan_cells idx r_idx current acc)
        acc (imap (λ i y, (k + i, y)) rows)
  = match last_true (has_other 0 idx <$> rows) with
    | 0 => acc
    | S m => acc `max` (k + S m)
    end.
Proof.
  revert k acc. induction rows as [|current rest IH]; intros k acc.
  - reflexivity.
  - rewrite enumerate_shift. cbn [foldl fmap list_fmap last_true].
    rewrite IH, scan_cells_spec.
    destruct (last_true (has_other 0 idx <$> rest)) as [|m];
      destruct (has_other 0 idx current); lia.
Qed.

Lemma scan_rows_last_true (csv_data : grid) :
  scan_rows idx csv_data = last_true (has_other 0 idx <$> csv_data).
Proof.
  unfold scan_rows, enumerate.
  rewrite (scan_rows_from 0 0).
  destruct (last_true _); lia.
Qed.

Lemma scan_rows_le (csv_data : grid) :
  scan_rows idx csv_data ≤ length csv_data.
Proof.
  rewrite scan_rows_last_true.
  etrans; [apply last_true_le|]. by rewrite length_fmap.
Qed.

Lemma max_rows_other_cols_le (csv_data : grid) :
  max_rows_other_cols idx csv_data ≤ length csv_data.
Proof.
  unfold max_rows_other_cols. pose proof (scan_rows_le csv_data).
  destruct (scan_rows idx csv_data =? 0); lia.
Qed.

Lemma max_rows_other_cols_pos (csv_data : grid) :
  csv_data ≠ [] → 1 ≤ max_rows_other_cols idx csv_data.
Proof.
  intros Hne. unfold max_rows_other_cols.
  destruct (scan_rows idx csv_data =? 0) eqn:H0.
  - destruct csv_data; [done|simpl; lia].
  - apply Nat.eqb_neq in H0. lia.
Qed.

End ScanFacts.

(** ** The fill loop, row by row *)

Section FillFacts.
Context (idx : nat).

Lemma fill_step_fill_row (csv_data : grid) (last : str) (i : nat)
    (current : row) :
  csv_data !! i = Some current →
  fill_step idx (csv_data, last) i
  = (<[i := (fill_row idx last current).1]> csv_data,
     (fill_row idx last current).2).
Proof.
  intros Hi. unfold fill_step, fill_row. rewrite Hi.
  destruct (nonblank _); [done|]. by destruct (truthy last).
Qed.

Lemma fill_step_out_of_range (csv_data : grid) (last : str) (i : nat) :
  csv_data !! i = None → fill_step idx (csv_data, last) i = (csv_data, last).
Proof. intros Hi. unfold fill_step. by rewrite Hi. Qed.

Lemma fill_loop_from (n a : nat) (csv_data : grid) (last : str) :
  (foldl (fill_step idx) (csv_data, last) (seq a n)).1
  = take a csv_data
    ++ fill_rows idx last (take n (drop a csv_data))
    ++ drop (a + n) csv_data.
Proof.
  revert a csv_data last. induction n as [|n IH]; intros a csv_data last.
  - cbn [seq foldl fst]. rewrite take_0, Nat.add_0_r. cbn [fill_rows app].
    by rewrite take_drop.
  - cbn [seq foldl]. destruct (csv_data !! a) as [current|] eqn:Ha.
    + rewrite (fill_step_fill_row _ _ _ _ Ha), IH.
      pose proof (lookup_lt_Some _ _ _ Ha) as Hlt.
      rewrite (drop_S _ _ _ Ha). cbn [take fill_rows].
      destruct (fill_row idx last current) as [current' last'] eqn:Hrow.
      cbn [fst snd].
      rewrite (take_S_r (<[a:=current']> csv_data) a current')
        by (by apply list_lookup_insert_eq).
      rewrite take_insert_ge by lia.
      rewrite !drop_insert_lt by lia.
      rewrite <- app_assoc. cbn [app].
      by replace (a + S n) with (S a + n) by lia.
    + rewrite (fill_step_out_of_range _ _ _ Ha), IH.
      apply lookup_ge_None_1 in Ha.
      rewrite !drop_ge by lia. rewrite !take_nil.
      rewrite (take_ge csv_data (S a)) by lia.
      by rewrite (take_ge csv_data a) by lia.
Qed.

Lemma length_fill_rows (last : str) (rows : grid) :
  length (fill_rows idx last rows) = length rows.
Proof.
  revert last. induction rows as [|current rest IH]; intros last; [done|].
  cbn [fill_rows]. destruct (fill_row idx last current). simpl. by rewrite IH.
Qed.

(** The grid the function returns once an instructions column is found. *)
Lemma fill_found (header_row : row) (rest : grid) :
  rest ≠ [] →
  find_instruction_col 0 header_row = Some idx →
  fill_answer_instruction_column (header_row :: rest)
  = header_row
    :: ((λ r, take (length header_row) r)
          <$> fill_rows idx []
                (take (max_rows_other_cols idx (header_row :: rest) - 1) rest)).
Proof.
  intros Hne Hfind. unfold fill_answer_instruction_column.
  destruct rest as [|second rest']; [done|]. rewrite Hfind.
  set (csv_data := header_row :: second :: rest').
  set (max_rows := max_rows_other_cols idx csv_data).
  assert (1 ≤ max_rows) as Hpos by (by apply max_rows_other_cols_pos).
  assert (max_rows ≤ length csv_data) as Hle
    by apply max_rows_other_cols_le.
  unfold fill_loop.
  pose proof (fill_loop_from (max_rows - 1) 1 csv_data []) as Hspec.
  destruct (foldl (fill_step idx) _ _) as [filled last].
  cbn [fst] in Hspec. subst filled.
  change (take 1 csv_data) with [header_row].
  change (drop 1 csv_data) with (second :: rest').
  destruct max_rows as [|m]; [lia|].
  cbn [app take fmap list_fmap].
  rewrite (take_ge header_row) by lia.
  replace (S m - 1) with m by lia.
  assert (length (fill_rows idx [] (take m (second :: rest'))) = m) as Hlen.
  { rewrite length_fill_rows, length_take. simpl in Hle. simpl. lia. }
  rewrite take_app_le by lia. by rewrite take_ge by lia.
Qed.

End FillFacts.

(** ** Single rows *)

Lemma find_instruction_col_bounds (i idx : nat) (header_row : row) :
  find_instruction_col i header_row = Some idx →
  i ≤ idx < i + length header_row.
Proof.
  revert i. induction header_row as [|header rest IH]; intros i; [done|].
  cbn [find_instruction_col length].
  destruct (truthy header && contains ANSWER_INSTRUCTION header).
  - intros [= <-]. lia.
  - intros H. apply IH in H. lia.
Qed.

Lemma find_instruction_col_lt (idx : nat) (header_row : row) :
  find_instruction_col 0 header_row = Some idx → idx < length header_row.
Proof. intros H. apply find_instruction_col_bounds in H. lia. Qed.

Lemma length_pad_row (idx : nat) (current : row) :
  length (pad_row idx current) = length current `max` S idx.
Proof. unfold pad_row. rewrite length_app, length_replicate. lia. Qed.

Lemma pad_row_id (idx : nat) (current : row) :
  idx < length current → pad_row idx current = current.
Proof.
  intros Hlt. unfold pad_row.
  replace (S idx - length current) with 0 by lia. apply app_nil_r.
Qed.

Lemma length_fill_row (idx : nat) (last : str) (current : row) :
  length (fill_row idx last current).1 = length current `max` S idx.
Proof.
  unfold fill_row. destruct (nonblank _); [apply length_pad_row|].
  destruct (truthy last); cbn [fst];
    rewrite ?length_insert; apply length_pad_row.
Qed.

Lemma fill_rows_lookup (idx : nat) (last : str) (rows : grid) (j : nat)
    (r : row) :
  fill_rows idx last rows !! j = Some r →
  ∃ r0 last', rows !! j = Some r0 ∧ r = (fill_row idx last' r0).1.
Proof.
  revert last j. induction rows as [|current rest IH]; intros last j; [done|].
  cbn [fill_rows].
  destruct (fill_row idx last current) as [current' last'] eqn:Hrow.
  destruct j as [|j]; simpl.
  - intros [= <-]. exists current, last. by rewrite Hrow.
  - apply IH.
Qed.

Example fill_demo :
  fill_answer_instruction_column
    [ [u "id"; ANSWER_INSTRUCTION];
      [u "1"; u "X"]; [u "2"; []]; [u "3"; []]; [u "4"; u "Y"]; [u "5"; []];
      [[]; []] ]
  = [ [u "id"; ANSWER_INSTRUCTION];
      [u "1"; u "X"]; [u "2"; u "X"]; [u "3"; u "X"]; [u "4"; u "Y"];
      [u "5"; u "Y"] ].
Proof. reflexivity. Qed.

(** ** Grids with fewer than two rows *)

(** C10: a grid with fewer than two rows (empty, or the header row only) is
    returned as it is, whatever its header cells hold and however long its
    row is. *)
Theorem fill_short_grid_unchanged (csv_data : grid) :
  length csv_data < 2 → fill_answer_instruction_column csv_data = csv_data.
Proof.
  intros Hlen. destruct csv_data as [|header_row [|second rest]]; try done.
  simpl in Hlen. lia.
Qed.

Lemma fill_short_grid_unchanged_witness :
  fill_answer_instruction_column [[ANSWER_INSTRUCTION; u "a"; u "b"]]
  = [[ANSWER_INSTRUCTION; u "a"; u "b"]].
Proof. apply fill_short_grid_unchanged. simpl. lia. Defined.

(** ** Row lengths after the fill stage *)

(** C1, as stated, fails on a grid with a row shorter than its header: the
    slice [row[:len(header_row)]] shortens rows and never lengthens them. *)
Lemma fill_short_row_counterexample :
  find_instruction_col 0 [u "a"; ANSWER_INSTRUCTION; u "c"] = Some 1
  ∧ fill_answer_instruction_column
      [[u "a"; ANSWER_INSTRUCTION; u "c"]; [u "x"]]
    = [[u "a"; ANSWER_INSTRUCTION; u "c"]; [u "x"; []]]
  ∧ ¬ Forall (λ r : row, length r = 3)
        (fill_answer_instruction_column
           [[u "a"; ANSWER_INSTRUCTION; u "c"]; [u "x"]]).
Proof.
  split; [reflexivity|]. split; [reflexivity|].
  intros H. apply Forall_cons in H as [_ H]. apply Forall_cons in H as [H _].
  simpl in H. lia.
Qed.

(** C1 (amended): when an instructions column is found, every retained row
    has at most as many cells as the header row, and exactly that many
    whenever the row it comes from had at least that many. *)
Theorem fill_row_lengths (header_row : row) (rest : grid) (idx i : nat)
    (r r0 : row) :
  find_instruction_col 0 header_row = Some idx →
  fill_answer_instruction_column (header_row :: rest) !! i = Some r →
  (header_row :: rest) !! i = Some r0 →
  length r ≤ length header_row
  ∧ (length header_row ≤ length r0 → length r = length header_row).
Proof.
  intros Hfind Hout Hin.
  destruct (decide (rest = [])) as [->|Hne].
  { destruct i; simpl in *; [|done]. simplify_eq. lia. }
  rewrite (fill_found idx) in Hout by done.
  destruct i as [|j]; simpl in *.
  { simplify_eq. lia. }
  rewrite list_lookup_fmap in Hout.
  destruct (fill_rows _ _ _ !! j) as [r'|] eqn:Hj; [|done].
  simpl in Hout. simplify_eq.
  apply fill_rows_lookup in Hj as (r1 & last' & Hr1 & ->).
  apply lookup_take_Some in Hr1 as [Hr1 _].
  rewrite Hin in Hr1. simplify_eq.
  rewrite length_take, length_fill_row.
  apply find_instruction_col_lt in Hfind. lia.
Qed.

Lemma fill_row_lengths_witness :
  length [u "1"; u "X"] ≤ length [u "id"; ANSWER_INSTRUCTION]
  ∧ (length [u "id"; ANSWER_INSTRUCTION] ≤ length [u "1"; u "X"; u "extra"] →
     length [u "1"; u "X"] = length [u "id"; ANSWER_INSTRUCTION]).
Proof.
  apply (fill_row_lengths [u "id"; ANSWER_INSTRUCTION]
           [[u "1"; u "X"; u "extra"]] 1 1); reflexivity.
Defined.

(** ** The row bound *)

Lemma nonblank_strip (cell : str) : nonblank cell = true ↔ strip cell ≠ [].
Proof.
  unfold nonblank. destruct cell as [|c cell]; [by cbv|].
  cbn [truthy andb]. by destruct (strip (c :: cell)).
Qed.

Lemma has_other_true (k idx : nat) (current : row) :
  has_other k idx current = true
  ↔ ∃ c cell, current !! c = Some cell ∧ k + c ≠ idx ∧ strip cell ≠ [].
Proof.
  revert k. induction current as [|cell rest IH]; intros k.
  - split; [done|]. by intros (c & cell & ? & _).
  - cbn [has_other]. rewrite orb_true_iff, andb_true_iff, negb_true_iff,
      Nat.eqb_neq, nonblank_strip, IH.
    split.
    + intros [[Hk Hc]|(c & cell' & Hl & Hk & Hc)].
      * exists 0, cell. split_and!; [done|lia|done].
      * exists (S c), cell'. split_and!; [done|lia|done].
    + intros ([|c] & cell' & Hl & Hk & Hc); simpl in Hl.
      * simplify_eq. left. split; [lia|done].
      * right. exists c, cell'. split_and!; [done|lia|done].
Qed.

Lemma other_content_has_other (idx : nat) (csv_data : grid) (r : nat) :
  other_content idx csv_data r
  ↔ (has_other 0 idx <$> csv_data) !! r = Some true.
Proof.
  unfold other_content. rewrite list_lookup_fmap. split.
  - intros (current & c & cell & -> & Hc). simpl. f_equal.
    apply has_other_true. by exists c, cell.
  - destruct (csv_data !! r) as [current|]; [|done]. simpl.
    intros [= H]. apply has_other_true in H as (c & cell & ? & ? & ?).
    by exists current, c, cell.
Qed.

Lemma last_true_zero (bs : list bool) :
  last_true bs = 0 ↔ ∀ j, bs !! j ≠ Some true.
Proof.
  induction bs as [|b rest IH]; [done|]. cbn [last_true].
  destruct (last_true rest) as [|m] eqn:Hm.
  - destruct b.
    + split; [done|]. intros H. by specialize (H 0).
    + split; [|done]. intros _ [|j]; [done|]. simpl. by apply IH.
  - split; [done|]. intros H. exfalso.
    assert (S m = 0) as Heq; [|done]. apply IH. intros j. apply (H (S j)).
Qed.

Lemma last_true_succ (bs : list bool) (m : nat) :
  last_true bs = S m →
  bs !! m = Some true ∧ ∀ j, bs !! j = Some true → j ≤ m.
Proof.
  revert m. induction bs as [|b rest IH]; intros m; [done|].
  cbn [last_true]. destruct (last_true rest) as [|n] eqn:Hn.
  - destruct b; [|done]. intros [= <-]. split; [done|].
    intros [|j]; [lia|]. simpl. intros Hj.
    by apply (proj1 (last_true_zero rest) Hn) in Hj.
  - intros [= <-]. destruct (IH n eq_refl) as [Hl Hmax]. split; [done|].
    intros [|j]; [lia|]. simpl. intros Hj. apply Hmax in Hj. lia.
Qed.

Lemma max_rows_largest (idx : nat) (csv_data : grid) :
  (∃ r, other_content idx csv_data r) →
  ∃ r, other_content idx csv_data r
       ∧ (∀ r', other_content idx csv_data r' → r' ≤ r)
       ∧ max_rows_other_cols idx csv_data = r + 1.
Proof.
  intros [r0 Hr0]. unfold max_rows_other_cols.
  rewrite scan_rows_last_true.
  destruct (last_true (has_other 0 idx <$> csv_data)) as [|m] eqn:Hm.
  - apply other_content_has_other in Hr0.
    by apply (proj1 (last_true_zero _) Hm) in Hr0.
  - apply last_true_succ in Hm as [Hl Hmax]. exists m. split_and!.
    + by apply other_content_has_other.
    + intros r' Hr'. by apply Hmax, other_content_has_other.
    + simpl. lia.
Qed.

Lemma max_rows_fallback (idx : nat) (csv_data : grid) :
  (∀ r, ¬ other_content idx csv_data r) →
  max_rows_other_cols idx csv_data = length csv_data.
Proof.
  intros Hnone. unfold max_rows_other_cols. rewrite scan_rows_last_true.
  replace (last_true (has_other 0 idx <$> csv_data)) with 0; [done|].
  symmetry. apply last_true_zero. intros j Hj.
  by apply other_content_has_other, Hnone in Hj.
Qed.

Lemma length_fill_found (header_row : row) (rest : grid) (idx : nat) :
  find_instruction_col 0 header_row = Some idx →
  length (fill_answer_instruction_column (header_row :: rest))
  = max_rows_other_cols idx (header_row :: rest).
Proof.
  intros Hfind.
  pose proof (max_rows_other_cols_le idx (header_row :: rest)) as Hle.
  pose proof (max_rows_other_cols_pos idx (header_row :: rest) ltac:(done))
    as Hpos.
  destruct (decide (rest = [])) as [->|Hne].
  - simpl in *. lia.
  - rewrite (fill_found idx) by done.
    cbn [length] in *.
    rewrite length_fmap, length_fill_rows, length_take. lia.
Qed.

(** C7, as stated, fails in two cases.  When no cell outside the
    instructions column is non-blank, nothing lies beyond row 0, yet the
    bound falls back to the grid length and all three rows are returned,
    not [0 + 1].  When no header holds the marker, the grid is returned as
    it is, trailing blank rows included. *)
Lemma fill_row_bound_counterexample :
  let only_column := [[ANSWER_INSTRUCTION]; [u "X"]; [u "Y"]] in
  let no_marker := [[u "a"]; [[]]; [[]]] in
  find_instruction_col 0 [ANSWER_INSTRUCTION] = Some 0
  ∧ (∀ r, 0 < r → ¬ other_content 0 only_column r)
  ∧ fill_answer_instruction_column only_column = only_column
  ∧ ¬ length (fill_answer_instruction_column only_column) ≤ 0 + 1
  ∧ find_instruction_col 0 [u "a"] = None
  ∧ (∀ r idx, 0 < r → ¬ other_content idx no_marker r)
  ∧ fill_answer_instruction_column no_marker = no_marker
  ∧ ¬ length (fill_answer_instruction_column no_marker) ≤ 0 + 1.
Proof.
  intros only_column no_marker.
  split_and!; try reflexivity.
  - intros r Hr Hc. apply other_content_has_other in Hc.
    destruct r as [|[|[|r]]]; [lia|by vm_compute in Hc..].
  - change (fill_answer_instruction_column only_column) with only_column.
    simpl. lia.
  - intros r idx Hr (current & c & cell & Hrow & Hc & _ & Hcell).
    destruct r as [|[|[|r]]]; [lia|..]; simpl in Hrow; simplify_eq;
      destruct c as [|c]; simpl in Hc; simplify_eq; by apply Hcell.
  - change (fill_answer_instruction_column no_marker) with no_marker.
    simpl. lia.
Qed.

(** C7 (amended): with an instructions column at [idx], the returned grid
    has at most [max_rows_other_cols] rows.  When some cell outside that column has a
    non-blank trimmed string, the bound is the largest [row_index + 1] of
    such a cell, so that no such content beyond row [k] leaves at most
    [k + 1] rows; when there is no such cell at all, the bound is the
    length of the grid, not zero. *)
Theorem fill_row_bound (header_row : row) (rest : grid) (idx : nat) :
  let csv_data := header_row :: rest in
  find_instruction_col 0 header_row = Some idx →
  length (fill_answer_instruction_column csv_data)
    ≤ max_rows_other_cols idx csv_data
  ∧ ((∃ r, other_content idx csv_data r) →
     ∃ r, other_content idx csv_data r
          ∧ (∀ r', other_content idx csv_data r' → r' ≤ r)
          ∧ max_rows_other_cols idx csv_data = r + 1)
  ∧ (∀ k, (∃ r, other_content idx csv_data r) →
          (∀ r, k < r → ¬ other_content idx csv_data r) →
          length (fill_answer_instruction_column csv_data) ≤ k + 1)
  ∧ ((∀ r, ¬ other_content idx csv_data r) →
     max_rows_other_cols idx csv_data = length csv_data
     ∧ length (fill_answer_instruction_column csv_data) = length csv_data).
Proof.
  intros csv_data Hfind.
  pose proof (length_fill_found header_row rest idx Hfind) as Hlen.
  fold csv_data in Hlen. split_and!.
  - lia.
  - apply max_rows_largest.
  - intros k Hex Hnone.
    destruct (max_rows_largest idx csv_data Hex) as (r & Hr & _ & Heq).
    rewrite Hlen, Heq. destruct (decide (k < r)) as [Hlt|]; [|lia].
    by apply Hnone in Hlt.
  - intros Hnone. pose proof (max_rows_fallback idx csv_data Hnone) as Heq.
    split; [done|]. by rewrite Hlen.
Qed.

Lemma fill_row_bound_witness :
  let csv_data := [[u "id"; ANSWER_INSTRUCTION]; [u "1"; u "X"];
                   [[]; u "Y"]; [[]; []]] in
  length (fill_answer_instruction_column csv_data)
    ≤ max_rows_other_cols 1 csv_data
  ∧ ((∃ r, other_content 1 csv_data r) →
     ∃ r, other_content 1 csv_data r
          ∧ (∀ r', other_content 1 csv_data r' → r' ≤ r)
          ∧ max_rows_other_cols 1 csv_data = r + 1)
  ∧ (∀ k, (∃ r, other_content 1 csv_data r) →
          (∀ r, k < r → ¬ other_content 1 csv_data r) →
          length (fill_answer_instruction_column csv_data) ≤ k + 1)
  ∧ ((∀ r, ¬ other_content 1 csv_data r) →
     max_rows_other_cols 1 csv_data = length csv_data
     ∧ length (fill_answer_instruction_column csv_data) = length csv_data).
Proof.
  apply (fill_row_bound [u "id"; ANSWER_INSTRUCTION]
           [[u "1"; u "X"]; [[]; u "Y"]; [[]; []]] 1).
  reflexivity.
Defined.

(** ** Forward fill *)

Lemma nonblank_truthy (s : str) : nonblank s = true → truthy s = true.
Proof. unfold nonblank. by intros [? _]%andb_true_iff. Qed.

Lemma fill_row_present (idx : nat) (last : str) (current : row) (v : str) :
  current !! idx = Some v →
  fill_row idx last current
  = if nonblank v then (current, v)
    else if truthy last then (<[idx := last]> current, last)
    else (current, last).
Proof.
  intros Hv. unfold fill_row.
  rewrite pad_row_id by (by eapply lookup_lt_Some). by rewrite Hv.
Qed.

(** C6: with an instructions column at [idx], five data rows as long as the
    header whose instructions cells are [x], empty, empty, [y], empty
    ([x] and [y] non-blank, as ["X"] and ["Y"] are) and whose other cells
    are all non-blank, the column of the returned grid reads: the header
    cell as it was, then [x], [x], [x], [y], [y]. *)
Theorem fill_forward_example (header_row r1 r2 r3 r4 r5 : row) (idx : nat)
    (x y : str) :
  find_instruction_col 0 header_row = Some idx →
  nonblank x = true → nonblank y = true →
  Forall (λ r : row, length r = length header_row) [r1; r2; r3; r4; r5] →
  r1 !! idx = Some x → r2 !! idx = Some [] → r3 !! idx = Some [] →
  r4 !! idx = Some y → r5 !! idx = Some [] →
  (∀ (r : row) (c : nat) (cell : str),
     r ∈ [r1; r2; r3; r4; r5] → r !! c = Some cell → c ≠ idx →
     strip cell ≠ []) →
  (λ r : row, r !! idx)
    <$> fill_answer_instruction_column [header_row; r1; r2; r3; r4; r5]
  = [header_row !! idx; Some x; Some x; Some x; Some y; Some y].
Proof.
  intros Hfind Hx Hy Hlen H1 H2 H3 H4 H5 Hother.
  pose proof (find_instruction_col_lt _ _ Hfind) as Hidx.
  set (rest := [r1; r2; r3; r4; r5]).
  assert (max_rows_other_cols idx (header_row :: rest) = 6) as Hmax.
  { pose proof (max_rows_largest idx (header_row :: rest)) as Hlargest.
    pose proof (max_rows_fallback idx (header_row :: rest)) as Hnone.
    pose proof (max_rows_other_cols_le idx (header_row :: rest)) as Hle.
    simpl in Hle.
    destruct (decide (length header_row = 1)) as [Hone|Hmore].
    - apply Hnone. intros r (current & c & cell & Hr & Hc & Hne & _).
      assert (length current = 1) as Hcur.
      { destruct r as [|r]; simpl in Hr; [by simplify_eq|].
        rewrite <- Hone. by apply (proj1 (Forall_lookup _ _) Hlen r). }
      apply lookup_lt_Some in Hc. lia.
    - assert (other_content idx (header_row :: rest) 5) as Hlast.
      { set (c := if decide (idx = 0) then 1 else 0).
        assert (c ≠ idx) as Hc by (unfold c; case_decide; lia).
        assert (length r5 = length header_row) as Hl5.
        { by apply (proj1 (Forall_lookup _ _) Hlen 4 r5). }
        destruct (lookup_lt_is_Some_2 r5 c) as [cell Hcell].
        { unfold c. case_decide; lia. }
        exists r5, c, cell. split_and!; [done..|].
        apply (Hother r5 c); [|done..].
        by apply (list_elem_of_lookup_2 _ 4). }
      destruct Hlargest as (r & _ & Hr & Heq); [by exists 5|].
      apply Hr in Hlast. lia. }
  rewrite (fill_found idx) by done. fold rest. rewrite Hmax.
  unfold rest. cbn [take Nat.sub fill_rows].
  pose proof (nonblank_truthy _ Hx) as Htx.
  pose proof (nonblank_truthy _ Hy) as Hty.
  rewrite (fill_row_present _ _ _ _ H1), Hx.
  rewrite (fill_row_present _ _ _ _ H2). cbn [nonblank truthy andb].
  rewrite Htx.
  rewrite (fill_row_present _ _ _ _ H3). cbn [nonblank truthy andb].
  rewrite Htx.
  rewrite (fill_row_present _ _ _ _ H4), Hy.
  rewrite (fill_row_present _ _ _ _ H5). cbn [nonblank truthy andb].
  rewrite Hty.
  cbn [fmap list_fmap].
  rewrite !lookup_take_lt by done.
  rewrite !list_lookup_insert_eq by (by eapply lookup_lt_Some).
  by rewrite H1, H4.
Qed.

Lemma fill_forward_example_witness :
  (λ r : row, r !! 1)
    <$> fill_answer_instruction_column
          [[u "id"; ANSWER_INSTRUCTION];
           [u "1"; u "X"]; [u "2"; []]; [u "3"; []]; [u "4"; u "Y"];
           [u "5"; []]]
  = [Some ANSWER_INSTRUCTION; Some (u "X"); Some (u "X"); Some (u "X");
     Some (u "Y"); Some (u "Y")].
Proof.
  apply (fill_forward_example [u "id"; ANSWER_INSTRUCTION]
           [u "1"; u "X"] [u "2"; []] [u "3"; []] [u "4"; u "Y"] [u "5"; []]
           1 (u "X") (u "Y")); try reflexivity.
  - repeat constructor.
  - intros r c cell Hr Hc Hne.
    assert (c = 0) as ->.
    { apply lookup_lt_Some in Hc.
      repeat (apply elem_of_cons in Hr as [->|Hr]; [simpl in Hc; lia|]).
      by apply elem_of_nil in Hr. }
    repeat (apply elem_of_cons in Hr as [->|Hr];
            [simpl in Hc; simplify_eq; by vm_compute|]).
    by apply elem_of_nil in Hr.
Defined.

(** ** Running the fill stage twice *)

Lemma has_other_pad (k idx n : nat) (current : row) :
  has_other k idx (current ++ replicate n []) = has_other k idx current.
Proof.
  revert k. induction current as [|cell rest IH]; intros k.
  - simpl. revert k. induction n as [|n IHn]; intros k; [done|].
    cbn [replicate has_other]. rewrite IHn.
    by rewrite andb_false_r.
  - cbn [app has_other]. by rewrite IH.
Qed.

Lemma has_other_insert (k idx c : nat) (v : str) (current : row) :
  k + c = idx →
  has_other k idx (<[c := v]> current) = has_other k idx current.
Proof.
  revert k c. induction current as [|cell rest IH]; intros k c Hc; [done|].
  destruct c as [|c]; cbn [has_other].
  - simpl. replace (k =? idx) with true; [done|].
    symmetry. apply Nat.eqb_eq. lia.
  - change (<[S c:=v]> (cell :: rest)) with (cell :: <[c:=v]> rest).
    cbn [has_other]. rewrite IH; [done|lia].
Qed.

Lemma has_other_fill_row (idx : nat) (last : str) (current : row) :
  has_other 0 idx (fill_row idx last current).1 = has_other 0 idx current.
Proof.
  unfold fill_row. destruct (nonblank _); cbn [fst].
  - apply has_other_pad.
  - destruct (truthy last); cbn [fst].
    + rewrite has_other_insert by done. apply has_other_pad.
    + apply has_other_pad.
Qed.

Lemma has_other_fill_rows (idx : nat) (last : str) (rows : grid) :
  has_other 0 idx <$> fill_rows idx last rows = has_other 0 idx <$> rows.
Proof.
  revert last. induction rows as [|current rest IH]; intros last; [done|].
  cbn [fill_rows]. pose proof (has_other_fill_row idx last current) as Hrow.
  destruct (fill_row idx last current) as [current' last'].
  cbn [fmap list_fmap]. cbn [fst] in Hrow. rewrite Hrow. f_equal. apply IH.
Qed.

Lemma last_true_take_self (bs : list bool) :
  last_true (take (last_true bs) bs) = last_true bs.
Proof.
  induction bs as [|b rest IH]; [done|]. cbn [last_true].
  destruct (last_true rest) as [|m] eqn:Hm.
  - destruct b; [|done]. cbn [take last_true]. by rewrite take_0.
  - cbn [take last_true]. by rewrite IH.
Qed.

Lemma last_true_take_zero (bs : list bool) (n : nat) :
  last_true bs = 0 → last_true (take n bs) = 0.
Proof.
  rewrite !last_true_zero. intros H j Hj.
  apply lookup_take_Some in Hj as [Hj _]. by apply H in Hj.
Qed.

Lemma fill_row_last_ok (idx : nat) (last : str) (current : row) :
  last_ok last → last_ok (fill_row idx last current).2.
Proof.
  intros Hlast. unfold fill_row. destruct (nonblank _) eqn:Hv.
  - by right.
  - by destruct (truthy last).
Qed.

Lemma fill_row_again (idx : nat) (last : str) (current : row) :
  last_ok last →
  fill_row idx last (fill_row idx last current).1
  = fill_row idx last current.
Proof.
  intros Hlast.
  assert (idx < length (pad_row idx current)) as Hlt
    by (rewrite length_pad_row; lia).
  destruct (lookup_lt_is_Some_2 _ _ Hlt) as [v Hv].
  assert (fill_row idx last current
          = if nonblank v then (pad_row idx current, v)
            else if truthy last
                 then (<[idx := last]> (pad_row idx current), last)
                 else (pad_row idx current, last)) as ->
    by (unfold fill_row; by rewrite Hv).
  destruct (nonblank v) eqn:Hnb; cbn [fst].
  - by rewrite (fill_row_present _ _ _ _ Hv), Hnb.
  - destruct (truthy last) eqn:Ht; cbn [fst].
    + destruct Hlast as [->|Hlast]; [done|].
      rewrite (fill_row_present idx last _ last)
        by (by apply list_lookup_insert_eq).
      by rewrite Hlast.
    + by rewrite (fill_row_present _ _ _ _ Hv), Hnb, Ht.
Qed.

Lemma fill_rows_again (idx : nat) (last : str) (rows : grid) :
  last_ok last →
  fill_rows idx last (fill_rows idx last rows) = fill_rows idx last rows.
Proof.
  revert last. induction rows as [|current rest IH]; intros last Hlast; [done|].
  cbn [fill_rows].
  pose proof (fill_row_again idx last current Hlast) as Hrow.
  pose proof (fill_row_last_ok idx last current Hlast) as Hok.
  destruct (fill_row idx last current) as [current' last'].
  cbn [fst snd] in *. cbn [fill_rows]. rewrite Hrow. f_equal. by apply IH.
Qed.

Lemma fill_rows_short (idx width : nat) (last : str) (rows : grid) :
  idx < width →
  Forall (λ r : row, length r ≤ width) rows →
  (λ r : row, take width r) <$> fill_rows idx last rows
  = fill_rows idx last rows.
Proof.
  intros Hidx. revert last.
  induction rows as [|current rest IH]; intros last Hrows; [done|].
  apply Forall_cons in Hrows as [Hcur Hrest]. cbn [fill_rows].
  pose proof (length_fill_row idx last current) as Hlen.
  destruct (fill_row idx last current) as [current' last'].
  cbn [fst] in Hlen. cbn [fmap list_fmap]. f_equal.
  - apply take_ge. lia.
  - by apply IH.
Qed.

(** C2, as stated, fails on a grid with a row longer than its header: the
    cell that set the row bound is cut off by the column slice, so the
    second run computes a smaller bound and drops a row. *)
Lemma fill_twice_counterexample :
  let csv_data := [[u "h"; ANSWER_INSTRUCTION]; [u "a"; u "X"];
                   [[]; []; u "z"]] in
  fill_answer_instruction_column csv_data
  = [[u "h"; ANSWER_INSTRUCTION]; [u "a"; u "X"]; [[]; u "X"]]
  ∧ fill_answer_instruction_column (fill_answer_instruction_column csv_data)
    = [[u "h"; ANSWER_INSTRUCTION]; [u "a"; u "X"]]
  ∧ fill_answer_instruction_column (fill_answer_instruction_column csv_data)
    ≠ fill_answer_instruction_column csv_data.
Proof. split; [reflexivity|]. split; [reflexivity|]. by vm_compute. Qed.

(** C2 (amended): on every grid none of whose rows is longer than its
    header row, running the fill stage on its own output returns that
    output. *)
Theorem fill_idempotent (csv_data : grid) :
  (∀ header_row rest, csv_data = header_row :: rest →
     Forall (λ r : row, length r ≤ length header_row) rest) →
  fill_answer_instruction_column (fill_answer_instruction_column csv_data)
  = fill_answer_instruction_column csv_data.
Proof.
  intros Hshape.
  destruct csv_data as [|header_row rest]; [done|].
  specialize (Hshape header_row rest eq_refl).
  destruct (decide (rest = [])) as [->|Hne]; [done|].
  destruct (find_instruction_col 0 header_row) as [idx|] eqn:Hfind.
  2:{ assert (fill_answer_instruction_column (header_row :: rest)
              = header_row :: rest) as Hid.
      { unfold fill_answer_instruction_column. rewrite Hfind.
        by destruct rest. }
      by rewrite !Hid. }
  pose proof (find_instruction_col_lt _ _ Hfind) as Hidx.
  set (csv_data := header_row :: rest).
  set (max_rows := max_rows_other_cols idx csv_data).
  assert (1 ≤ max_rows) as Hpos by (by apply max_rows_other_cols_pos).
  assert (max_rows ≤ S (length rest)) as Hle
    by apply (max_rows_other_cols_le idx csv_data).
  set (kept := take (max_rows - 1) rest).
  assert (Forall (λ r : row, length r ≤ length header_row) kept) as Hkept
    by (by apply Forall_take).
  unfold csv_data. rewrite (fill_found idx) by done.
  fold csv_data. fold max_rows. fold kept.
  rewrite fill_rows_short by done.
  set (filled := fill_rows idx [] kept).
  assert (length filled = max_rows - 1) as Hfilled.
  { unfold filled, kept. rewrite length_fill_rows, length_take. lia. }
  destruct (decide (filled = [])) as [Hnil|Hfne]; [by rewrite Hnil|].
  rewrite (fill_found idx) by done.
  assert (max_rows_other_cols idx (header_row :: filled) = max_rows) as Hsame.
  { unfold max_rows_other_cols at 1. rewrite scan_rows_last_true.
    cbn [fmap list_fmap]. unfold filled. rewrite has_other_fill_rows.
    change (has_other 0 idx header_row :: (has_other 0 idx <$> kept))
      with (has_other 0 idx <$> (header_row :: kept)).
    replace (header_row :: kept) with (take max_rows csv_data).
    2:{ unfold csv_data, kept. destruct max_rows as [|m]; [lia|].
        cbn [take]. by replace (S m - 1) with m by lia. }
    rewrite fmap_take. cbn [length]. fold filled. rewrite Hfilled.
    unfold max_rows, max_rows_other_cols. rewrite scan_rows_last_true.
    fold csv_data.
    destruct (last_true (has_other 0 idx <$> csv_data)) as [|m] eqn:Hm.
    - cbn [Nat.eqb]. rewrite last_true_take_zero by done. cbn [Nat.eqb].
      unfold max_rows, max_rows_other_cols in Hpos.
      rewrite scan_rows_last_true, Hm in Hpos. cbn [Nat.eqb] in Hpos. lia.
    - pose proof (last_true_take_self (has_other 0 idx <$> csv_data)) as Hs.
      rewrite Hm in Hs. cbn [Nat.eqb]. by rewrite Hs. }
  rewrite Hsame. f_equal.
  rewrite (take_ge filled) by lia. unfold filled.
  rewrite fill_rows_again by (by left).
  by apply fill_rows_short.
Qed.

Lemma fill_idempotent_witness :
  let csv_data := [[u "id"; ANSWER_INSTRUCTION]; [u "1"; u "X"];
                   [u "2"; []]; [u "3"]; [[]; []]] in
  fill_answer_instruction_column (fill_answer_instruction_column csv_data)
  = fill_answer_instruction_column csv_data.
Proof.
  apply fill_idempotent. intros header_row rest [= <- <-].
  repeat constructor.
Defined.

(** ** The merged-cell resolver *)

Section ResolverFacts.
Context {V : Type}.
Implicit Types (ws : Worksheet V) (mr : CellRange).

Lemma first_containing_Some (r c : Z) (ranges : list CellRange) mr :
  first_containing r c ranges = Some mr →
  mr ∈ ranges ∧ in_range r c mr = true.
Proof.
  induction ranges as [|mr' rest IH]; [done|]. cbn [first_containing].
  destruct (in_range r c mr') eqn:Hin.
  - intros [= <-]. split; [apply list_elem_of_here|done].
  - intros H. destruct (IH H) as [Hel ?].
    split; [by apply list_elem_of_further|done].
Qed.

Lemma first_containing_None (r c : Z) (ranges : list CellRange) :
  first_containing r c ranges = None ↔
  ∀ mr, mr ∈ ranges → in_range r c mr = false.
Proof.
  induction ranges as [|mr' rest IH]; cbn [first_containing].
  - split; [|done]. by intros _ mr ?%elem_of_nil.
  - destruct (in_range r c mr') eqn:Hin.
    + split; [done|]. intros H.
      rewrite (H mr') in Hin by apply list_elem_of_here. done.
    + rewrite IH. split.
      * intros H mr [->|?]%elem_of_cons; [done|by apply H].
      * intros H mr ?. by apply H, list_elem_of_further.
Qed.

Lemma flatten_lookup (py_str : V → str) ws (r c : Z) :
  (1 ≤ r ≤ ws_max_row ws)%Z → (1 ≤ c ≤ ws_max_column ws)%Z →
  flatten py_str ws !! Z.to_nat (r - 1)
  = Some ((λ c', cell_text py_str (get_merged_cell_value ws r c'))
            <$> seqZ 1 (ws_max_column ws))
  ∧ ((λ c', cell_text py_str (get_merged_cell_value ws r c'))
       <$> seqZ 1 (ws_max_column ws)) !! Z.to_nat (c - 1)
    = Some (cell_text py_str (get_merged_cell_value ws r c)).
Proof.
  intros Hr Hc. unfold flatten. rewrite !list_lookup_fmap.
  rewrite !lookup_seqZ_lt by lia. cbn [fmap option_fmap option_map].
  replace (1 + Z.of_nat (Z.to_nat (r - 1)))%Z with r by lia.
  by replace (1 + Z.of_nat (Z.to_nat (c - 1)))%Z with c by lia.
Qed.

End ResolverFacts.

(** C5, as stated, fails when two merged ranges share a cell: the loop
    leaves at the first range containing the address, so a shared cell takes
    the value at the top-left of one range and not of the other, whichever
    range comes first. *)
Lemma merged_overlap_counterexample :
  let a1_b2 := {| min_row := 1; min_col := 1; max_row := 2; max_col := 2 |} in
  let b2_c3 := {| min_row := 2; min_col := 2; max_row := 3; max_col := 3 |} in
  let stored : gmap (Z * Z) str := {[ (1, 1)%Z := u "x" ]} in
  let ws1 := {| cells := stored; merged_ranges := [a1_b2; b2_c3];
                ws_max_row := 3; ws_max_column := 3 |} in
  let ws2 := {| cells := stored; merged_ranges := [b2_c3; a1_b2];
                ws_max_row := 3; ws_max_column := 3 |} in
  in_range 2 2 a1_b2 = true ∧ in_range 2 2 b2_c3 = true
  ∧ get_merged_cell_value ws1 2 2 = Some (u "x")
  ∧ get_merged_cell_value ws1 2 2
    ≠ cell_value ws1 (min_row b2_c3) (min_col b2_c3)
  ∧ get_merged_cell_value ws2 2 2 = None
  ∧ get_merged_cell_value ws2 2 2
    ≠ cell_value ws2 (min_row a1_b2) (min_col a1_b2).
Proof. by vm_compute. Qed.

(** C5 (amended): an address [(r, c)] inside a merged range of the sheet,
    and inside no other, resolves to the value stored at that range's
    top-left cell, and if the address is within the sheet's bounds the
    flattened grid holds the text of that value at row [r - 1], column
    [c - 1]; an address inside no merged range resolves to its own stored
    value. *)
Theorem merged_cell_resolution {V : Type} (py_str : V → str)
    (ws : Worksheet V) (r c : Z) :
  (∀ mr, mr ∈ merged_ranges ws → in_range r c mr = true →
     (∀ mr', mr' ∈ merged_ranges ws → in_range r c mr' = true → mr' = mr) →
     get_merged_cell_value ws r c = cell_value ws (min_row mr) (min_col mr)
     ∧ ((1 ≤ r ≤ ws_max_row ws)%Z → (1 ≤ c ≤ ws_max_column ws)%Z →
        ∃ current, flatten py_str ws !! Z.to_nat (r - 1) = Some current
          ∧ current !! Z.to_nat (c - 1)
            = Some (cell_text py_str
                      (cell_value ws (min_row mr) (min_col mr)))))
  ∧ ((∀ mr, mr ∈ merged_ranges ws → in_range r c mr = false) →
     get_merged_cell_value ws r c = cell_value ws r c).
Proof.
  split.
  - intros mr Hel Hin Honly.
    assert (get_merged_cell_value ws r c
            = cell_value ws (min_row mr) (min_col mr)) as Hval.
    { unfold get_merged_cell_value.
      destruct (first_containing r c (merged_ranges ws)) as [mr'|] eqn:Hfirst.
      - apply first_containing_Some in Hfirst as [Hel' Hin'].
        by rewrite (Honly mr' Hel' Hin').
      - rewrite first_containing_None in Hfirst.
        rewrite (Hfirst mr Hel) in Hin. done. }
    split; [done|]. intros Hr Hc.
    destruct (flatten_lookup py_str ws r c Hr Hc) as [Hrow Hcell].
    eexists. split; [exact Hrow|]. by rewrite Hcell, Hval.
  - intros Hnone. unfold get_merged_cell_value.
    by rewrite (proj2 (first_containing_None r c _) Hnone).
Qed.

Lemma merged_cell_resolution_witness :
  let a1_b2 := {| min_row := 1; min_col := 1; max_row := 2; max_col := 2 |} in
  let stored : gmap (Z * Z) str :=
    {[ (1, 1)%Z := u "x"; (3, 1)%Z := u "y" ]} in
  let ws := {| cells := stored; merged_ranges := [a1_b2];
               ws_max_row := 3; ws_max_column := 2 |} in
  (get_merged_cell_value ws 2 2 = cell_value ws 1 1
   ∧ ∃ current, flatten id ws !! 1 = Some current
       ∧ current !! 1 = Some (cell_text id (cell_value ws 1 1)))
  ∧ get_merged_cell_value ws 3 1 = cell_value ws 3 1.
Proof.
  intros a1_b2 stored ws. split.
  - destruct (merged_cell_resolution id ws 2 2) as [Hin _].
    destruct (Hin a1_b2) as [Hval Hgrid].
    + apply list_elem_of_here.
    + reflexivity.
    + by intros mr' ->%list_elem_of_singleton _.
    + split; [exact Hval|]. apply Hgrid; simpl; lia.
  - destruct (merged_cell_resolution id ws 3 1) as [_ Hout].
    apply Hout. by intros mr ->%list_elem_of_singleton.
Defined.

(** ** The labeled-field merger *)

Lemma row_get_has_column (df : DataFrame) (i : nat) (col v : str) :
  row_get df i col = Val v → has_column col df = true.
Proof.
  unfold row_get, has_column, column_names.
  destruct (list_find _ _) as [[k [n values]]|] eqn:Hfind; [|done].
  intros _. apply list_find_Some in Hfind as (Hk & Hn & _). simpl in Hn.
  apply bool_decide_eq_true. subst n.
  apply (list_elem_of_lookup_2 _ k). by rewrite list_lookup_fmap, Hk.
Qed.

Lemma filled_Val (v : str) : filled (Val v) = true ↔ strip v ≠ [].
Proof.
  unfold filled. cbn [notna py_str andb].
  destruct (strip v); cbn [truthy]; naive_solver.
Qed.

Lemma labeled_Val (label v : str) :
  strip v ≠ [] → labeled label (Val v) = [label ++ strip v].
Proof. intros H. unfold labeled. by rewrite (proj2 (filled_Val v) H). Qed.

Lemma labeled_blank (label : str) (v : cell) :
  filled v = false → labeled label v = [].
Proof. intros H. unfold labeled. by rewrite H. Qed.

Lemma set_column_fresh (col : str) (values : list cell)
    (cols : list (str * list cell)) :
  col ∉ cols.*1 → set_column col values cols = cols ++ [(col, values)].
Proof.
  induction cols as [|[n vs] rest IH]; [done|]. cbn [set_column fmap list_fmap].
  intros Hnot. apply not_elem_of_cons in Hnot as [Hne Hrest].
  simpl in Hne. destruct (decide (n = col)); [done|].
  cbn [app]. f_equal. by apply IH.
Qed.

Lemma set_column_find (col : str) (values : list cell)
    (cols : list (str * list cell)) :
  ∃ k, list_find (λ p : str * list cell, p.1 = col)
         (set_column col values cols)
       = Some (k, (col, values)).
Proof.
  induction cols as [|[n vs] rest IH]; cbn [set_column].
  - exists 0. cbn. by rewrite decide_True.
  - destruct (decide (n = col)) as [->|Hne].
    + exists 0. cbn. by rewrite decide_True.
    + destruct IH as [k Hk]. exists (S k). cbn.
      rewrite decide_False by done. by rewrite Hk.
Qed.

Lemma missing_columns_nil (df : DataFrame) :
  missing_columns df = [] ↔
  Forall (λ col, col ∈ column_names df) required_columns.
Proof.
  unfold missing_columns. generalize required_columns.
  intros cols. induction cols as [|col rest IH].
  - split; [constructor|done].
  - rewrite filter_cons, Forall_cons.
    destruct (decide (col ∉ column_names df)) as [Hnot|Hin].
    + split; [done|]. by intros [? _].
    + rewrite IH. apply dec_stable in Hin.
      split; [by intros ?; split|by intros [_ ?]].
Qed.

Lemma populated_Val (df : DataFrame) (i : nat) (col v : str) :
  row_get df i col = Val v → strip v ≠ [] → populated df i col = true.
Proof.
  intros Hget Hv. unfold populated.
  by rewrite (row_get_has_column _ _ _ _ Hget), Hget, (proj2 (filled_Val v)).
Qed.

(** What a merge that passes the check stores for the record at position
    [i]. *)
Lemma merge_frame_stored (df : DataFrame) (i : nat) :
  Forall (λ col, col ∈ column_names df) required_columns →
  i < nrows df →
  ∃ df', merge_frame df = Some df'
    ∧ row_get df' i COL_QUESTION_INFO = Val (question_info df i).
Proof.
  intros Hreq Hrow. unfold merge_frame.
  rewrite bool_decide_eq_true_2 by (by apply missing_columns_nil).
  eexists. split; [done|].
  unfold row_get. cbn [columns].
  destruct (set_column_find COL_QUESTION_INFO
              (Val <$> question_info_list df) (columns df)) as [k ->].
  unfold question_info_list.
  by rewrite !list_lookup_fmap, lookup_seq_lt by done.
Qed.

Lemma row_get_column_name (df : DataFrame) (i : nat) (col v : str) :
  row_get df i col = Val v → col ∈ column_names df.
Proof.
  intros H. apply row_get_has_column in H.
  by apply bool_decide_eq_true in H.
Qed.

(** C8: for a record whose material content, instructions, question type,
    stem and correct answer are present and non-blank and whose populated
    options are A and C (B, like every other option, blank or absent), the
    merge goes through and the value it stores for the record in the field
    [题目信息] is the six sections in that order, joined by a double line
    break, the last one listing exactly the lines ["A. <value>"] and
    ["C. <value>"]; and a record without any qualifying section receives
    the new field with the empty string. *)
Theorem question_info_block (df : DataFrame) (i : nat) :
  i < nrows df →
  (∀ material instruction qtype stem answer a c : str,
     row_get df i COL_MATERIAL = Val material → strip material ≠ [] →
     row_get df i COL_INSTRUCTION = Val instruction →
     strip instruction ≠ [] →
     row_get df i COL_TYPE = Val qtype → strip qtype ≠ [] →
     row_get df i COL_STEM = Val stem → strip stem ≠ [] →
     row_get df i COL_ANSWER = Val answer → strip answer ≠ [] →
     row_get df i OPTION_A = Val a → strip a ≠ [] →
     row_get df i OPTION_C = Val c → strip c ≠ [] →
     (∀ col, col ∈ option_columns → col ≠ OPTION_A → col ≠ OPTION_C →
        populated df i col = false) →
     let block :=
       LABEL_MATERIAL ++ strip material ++ [0xA; 0xA]%N
       ++ LABEL_INSTRUCTION ++ strip instruction ++ [0xA; 0xA]%N
       ++ LABEL_TYPE ++ strip qtype ++ [0xA; 0xA]%N
       ++ LABEL_STEM ++ strip stem ++ [0xA; 0xA]%N
       ++ LABEL_ANSWER ++ strip answer ++ [0xA; 0xA]%N
       ++ LABEL_OPTIONS ++ (u "A. " ++ strip a) ++ [0xA]%N
       ++ (u "C. " ++ strip c) in
     question_info df i = block
     ∧ ∃ df', merge_frame df = Some df'
         ∧ row_get df' i COL_QUESTION_INFO = Val block)
  ∧ (Forall (λ col, col ∈ column_names df) required_columns →
     Forall (λ col, filled (row_get df i col) = false) required_columns →
     populated df i COL_INSTRUCTION = false →
     Forall (λ col, populated df i col = false) option_columns →
     question_info df i = []
     ∧ ∃ df', merge_frame df = Some df'
         ∧ row_get df' i COL_QUESTION_INFO = Val []).
Proof.
  intros Hrow. split.
  - intros material instruction qtype stem answer a c
      Hm Hm' Hi Hi' Ht Ht' Hs Hs' Ha Ha' HA HA' HC HC' Hothers block.
    assert (option_lines df i
            = [u "A. " ++ strip a; u "C. " ++ strip c]) as Hopts.
    { pose proof (populated_Val _ _ _ _ HA HA') as HpA.
      pose proof (populated_Val _ _ _ _ HC HC') as HpC.
      unfold populated in HpA, HpC.
      assert (∀ col, col ∈ option_columns → col ≠ OPTION_A →
                col ≠ OPTION_C →
                (if has_column col df && filled (row_get df i col)
                 then [option_line col (row_get df i col)] else [])
                = []) as Hoff.
      { intros col H1 H2 H3. specialize (Hothers col H1 H2 H3).
        unfold populated in Hothers. by rewrite Hothers. }
      unfold option_lines.
      change option_columns with
        (OPTION_A :: (OPTION_PREFIX ++ u "B") :: OPTION_C
           :: ((λ l, OPTION_PREFIX ++ u l)
                 <$> ["D"; "E"; "F"; "G"; "H"; "I"; "J"; "K"]%string)).
      cbn [fmap list_fmap mbind list_bind].
      rewrite HpA, HpC, HA, HC.
      rewrite !Hoff by (apply (bool_decide_unpack _); vm_compute; exact I).
      reflexivity. }
    assert (question_info df i = block) as Hblock.
    { unfold question_info, info_parts.
      rewrite Hm, Hi, Ht, Hs, Ha, (row_get_has_column _ _ _ _ Hi), Hopts.
      rewrite !labeled_Val by done.
      cbn [app bool_decide]. rewrite !bool_decide_eq_false_2 by done.
      cbn [join]. unfold block. by rewrite <- !app_assoc. }
    split; [done|]. rewrite <- Hblock.
    apply merge_frame_stored; [|done].
    unfold required_columns.
    repeat constructor; by eapply row_get_column_name.
  - intros Hreq Hblank Hins Hopts.
    assert (info_parts df i = []) as Hparts.
    { unfold info_parts.
      apply Forall_cons in Hblank as [Hm Hblank].
      apply Forall_cons in Hblank as [Ht Hblank].
      apply Forall_cons in Hblank as [Hs Hblank].
      apply Forall_cons in Hblank as [Ha _].
      rewrite (labeled_blank _ _ Hm), (labeled_blank _ _ Ht),
        (labeled_blank _ _ Hs), (labeled_blank _ _ Ha).
      assert (option_lines df i = []) as ->.
      { unfold option_lines. induction Hopts as [|col rest Hcol _ IH]; [done|].
        cbn [mbind list_bind]. unfold populated in Hcol. rewrite Hcol.
        exact IH. }
      unfold populated in Hins.
      destruct (has_column COL_INSTRUCTION df); [|done].
      cbn [andb] in Hins. by rewrite labeled_blank by done. }
    assert (question_info df i = []) as Hinfo.
    { unfold question_info. by rewrite Hparts. }
    split; [done|]. rewrite <- Hinfo. by apply merge_frame_stored.
Qed.

Lemma question_info_block_witness :
  let block :=
    LABEL_MATERIAL ++ u "text" ++ [0xA; 0xA]%N
    ++ LABEL_INSTRUCTION ++ u "pick one" ++ [0xA; 0xA]%N
    ++ LABEL_TYPE ++ u "single" ++ [0xA; 0xA]%N
    ++ LABEL_STEM ++ u "1+1?" ++ [0xA; 0xA]%N
    ++ LABEL_ANSWER ++ u "A" ++ [0xA; 0xA]%N
    ++ LABEL_OPTIONS ++ (u "A. " ++ u "2") ++ [0xA]%N ++ (u "C. " ++ u "3") in
  (question_info sample_frame 0 = block
   ∧ ∃ df', merge_frame sample_frame = Some df'
       ∧ row_get df' 0 COL_QUESTION_INFO = Val block)
  ∧ question_info sample_frame 1 = []
  ∧ ∃ df', merge_frame sample_frame = Some df'
      ∧ row_get df' 1 COL_QUESTION_INFO = Val [].
Proof.
  intros block. split.
  - destruct (question_info_block sample_frame 0) as [Hblock _];
      [simpl; lia|].
    apply (Hblock (u " text ") (u "pick one") (u "single") (u "1+1?")
             (u "A") (u "2") (u "3")); try reflexivity; try by vm_compute.
    intros col Hin HA HC.
    unfold option_columns in Hin. cbn [seq fmap list_fmap] in Hin.
    repeat (apply elem_of_cons in Hin as [->|Hin];
            [first [by exfalso; apply HA | by exfalso; apply HC
                   | by vm_compute]|]).
    by apply elem_of_nil in Hin.
  - destruct (question_info_block sample_frame 1) as [_ Hempty];
      [simpl; lia|].
    apply Hempty.
    + repeat constructor; apply (bool_decide_unpack _); vm_compute; exact I.
    + repeat constructor.
    + reflexivity.
    + unfold option_columns. cbn [seq fmap list_fmap].
      repeat constructor.
Defined.

(** C9, as stated, fails on a record set that already has a field named
    [题目信息]: the assignment overwrites that field where it stands, so its
    values are lost and no field is added. *)
Lemma merge_existing_field_counterexample :
  missing_columns sample_frame_with_info = []
  ∧ (∃ df', merge_frame sample_frame_with_info = Some df'
       ∧ column_names df' = column_names sample_frame_with_info
       ∧ length (columns df') = length (columns sample_frame_with_info)
       ∧ columns sample_frame_with_info !! 8
         = Some (COL_QUESTION_INFO, [Val (u "old"); Val (u "older")])
       ∧ columns df' !! 8
         = Some (COL_QUESTION_INFO,
                 [Val (question_info sample_frame_with_info 0); Val []])
       ∧ ∀ values, columns df'
                   ≠ columns sample_frame_with_info
                     ++ [(COL_QUESTION_INFO, values)]).
Proof.
  split; [reflexivity|]. eexists. split; [reflexivity|].
  split_and!; try reflexivity.
  intros values Heq. apply (f_equal length) in Heq.
  rewrite length_app in Heq. vm_compute in Heq. lia.
Qed.

(** C9 (amended): for a record set that has all required headers and no
    field named [题目信息] yet, the merged record set is the original one
    (same record count, same fields with the same values in the same order)
    followed by exactly one new field, [题目信息], holding one value per
    record. *)
Theorem merge_appends_one_field (df : DataFrame) :
  Forall (λ col, col ∈ column_names df) required_columns →
  COL_QUESTION_INFO ∉ column_names df →
  ∃ infos : list cell,
    merge_frame df
    = Some {| nrows := nrows df;
              columns := columns df ++ [(COL_QUESTION_INFO, infos)] |}
    ∧ length infos = nrows df
    ∧ ∀ i, i < nrows df → infos !! i = Some (Val (question_info df i)).
Proof.
  intros Hreq Hfresh.
  exists (Val <$> question_info_list df). split_and!.
  - unfold merge_frame.
    rewrite bool_decide_eq_true_2 by (by apply missing_columns_nil).
    by rewrite set_column_fresh.
  - unfold question_info_list. by rewrite !length_fmap, length_seq.
  - intros i Hi. unfold question_info_list.
    by rewrite !list_lookup_fmap, lookup_seq_lt.
Qed.

Lemma merge_appends_one_field_witness :
  ∃ infos : list cell,
    merge_frame sample_frame
    = Some {| nrows := 2;
              columns := columns sample_frame
                         ++ [(COL_QUESTION_INFO, infos)] |}
    ∧ length infos = 2
    ∧ ∀ i, i < 2 → infos !! i = Some (Val (question_info sample_frame i)).
Proof.
  apply (merge_appends_one_field sample_frame).
  - repeat constructor; apply (bool_decide_unpack _); vm_compute; exact I.
  - apply (bool_decide_unpack _). vm_compute. exact I.
Defined.

(** ** The per-file workflow when the merge does not complete *)

Section WorkflowFacts.
Context {V : Type} (cell_str : V → str).
Context (read_csv : grid → result DataFrame) (to_csv : DataFrame → grid).

Abbreviation merge_body := (merge_body read_csv to_csv).
Abbreviation merge_columns_to_question_info :=
  (merge_columns_to_question_info read_csv to_csv).
Abbreviation process_file := (process_file cell_str read_csv to_csv).

Lemma temp_name_ne_plain (xlsx : XlsxFile V) :
  temp_name xlsx ≠ plain_name xlsx.
Proof.
  intros H. apply (f_equal length) in H. unfold temp_name, plain_name in H.
  rewrite !length_app in H. simpl in H. lia.
Qed.

Lemma temp_name_ne_processed (xlsx : XlsxFile V) :
  temp_name xlsx ≠ processed_name xlsx.
Proof.
  intros H. apply (f_equal length) in H.
  unfold temp_name, processed_name in H.
  rewrite !length_app in H. simpl in H. lia.
Qed.

Lemma plain_name_ne_processed (xlsx : XlsxFile V) :
  plain_name xlsx ≠ processed_name xlsx.
Proof.
  intros H. apply (f_equal length) in H.
  unfold plain_name, processed_name in H.
  rewrite !length_app in H. simpl in H. lia.
Qed.

(** The world after a successful conversion. *)
Lemma convert_ok (w : World) (xlsx : XlsxFile V) (worksheet : Worksheet V)
    (csv_path : str) :
  workbook xlsx = Ok worksheet →
  csv_path ∉ locked w →
  convert_xlsx_to_csv cell_str w xlsx csv_path
  = ({| files := <[csv_path :=
                     fill_answer_instruction_column
                       (flatten cell_str worksheet)]> (files w);
        locked := locked w |}, true).
Proof.
  intros Hwb Hfree. unfold convert_xlsx_to_csv, write_csv.
  by rewrite Hwb, bool_decide_eq_false_2.
Qed.

(** A merge that raises leaves the output directory as it was and returns
    [False]. *)
Lemma merge_raise_false (w : World) (csv_path output_path msg : str) :
  (merge_body w csv_path output_path).2 = Raise msg →
  merge_columns_to_question_info w csv_path output_path = (w, false).
Proof.
  unfold Pipeline.merge_columns_to_question_info, Pipeline.merge_body.
  destruct (files w !! csv_path) as [content|]; [|done].
  destruct (read_csv content) as [df|msg']; [|done].
  destruct (merge_frame df) as [df'|]; [|done].
  by destruct (write_csv w output_path (to_csv df')).
Qed.

(** So does a merge that finds required columns missing. *)
Lemma merge_missing_false (w : World) (csv_path output_path : str)
    (content : grid) (df : DataFrame) :
  files w !! csv_path = Some content →
  read_csv content = Ok df →
  ¬ Forall (λ col, col ∈ column_names df) required_columns →
  merge_body w csv_path output_path = (w, Ok false)
  ∧ merge_columns_to_question_info w csv_path output_path = (w, false).
Proof.
  intros Hfile Hread Hmissing.
  assert (merge_frame df = None) as Hnone.
  { unfold merge_frame. rewrite bool_decide_eq_false_2; [done|].
    by rewrite missing_columns_nil. }
  unfold Pipeline.merge_columns_to_question_info, Pipeline.merge_body.
  by rewrite Hfile, Hread, Hnone.
Qed.

(** What the loop body does with a converted file whose merge returned
    [False] without touching the output directory. *)
Lemma process_file_fallback (st : RunState) (xlsx : XlsxFile V)
    (worksheet : Worksheet V) :
  let csv_data :=
    fill_answer_instruction_column (flatten cell_str worksheet) in
  let w1 := {| files := <[temp_name xlsx := csv_data]> (files (world st));
               locked := locked (world st) |} in
  workbook xlsx = Ok worksheet →
  temp_name xlsx ∉ locked (world st) →
  merge_columns_to_question_info w1 (temp_name xlsx) (processed_name xlsx)
  = (w1, false) →
  let st' := process_file st xlsx in
  success st' = success st + 1
  ∧ errors st' = errors st
  ∧ files (world st') !! plain_name xlsx = Some csv_data
  ∧ files (world st') !! temp_name xlsx = None
  ∧ files (world st') !! processed_name xlsx
    = files (world st) !! processed_name xlsx.
Proof.
  intros csv_data w1 Hwb Hfree Hmerge st'.
  unfold st', Pipeline.process_file.
  rewrite (convert_ok _ _ worksheet) by done.
  fold csv_data. fold w1. rewrite Hmerge.
  unfold rename. cbn [files w1]. rewrite lookup_insert_eq.
  cbn [world success errors unlink_if_exists files].
  pose proof (temp_name_ne_plain xlsx).
  pose proof (temp_name_ne_processed xlsx).
  pose proof (plain_name_ne_processed xlsx).
  split_and!; [done|done|..].
  - by rewrite lookup_delete_ne, lookup_insert_eq.
  - by rewrite lookup_delete_eq.
  - by rewrite lookup_delete_ne, lookup_insert_ne, lookup_delete_ne,
      lookup_insert_ne.
Qed.

(** C4: when the record set read back from the converted file lacks one of
    the four required headers, the merge returns [False] and leaves the
    output directory as it was (no [_processed] file is written), and the
    loop body renames the temporary file, so that [<stem>.csv] holds the
    flattened and filled grid; the file counts as a success. *)
Theorem missing_columns_fallback (st : RunState) (xlsx : XlsxFile V)
    (worksheet : Worksheet V) (df : DataFrame) :
  let csv_data :=
    fill_answer_instruction_column (flatten cell_str worksheet) in
  let w1 := {| files := <[temp_name xlsx := csv_data]> (files (world st));
               locked := locked (world st) |} in
  workbook xlsx = Ok worksheet →
  temp_name xlsx ∉ locked (world st) →
  read_csv csv_data = Ok df →
  ¬ Forall (λ col, col ∈ column_names df) required_columns →
  merge_columns_to_question_info w1 (temp_name xlsx) (processed_name xlsx)
  = (w1, false)
  ∧ let st' := process_file st xlsx in
    success st' = success st + 1
    ∧ errors st' = errors st
    ∧ files (world st') !! plain_name xlsx = Some csv_data
    ∧ files (world st') !! temp_name xlsx = None
    ∧ files (world st') !! processed_name xlsx
      = files (world st) !! processed_name xlsx.
Proof.
  intros csv_data w1 Hwb Hfree Hread Hmissing.
  assert (merge_columns_to_question_info w1 (temp_name xlsx)
            (processed_name xlsx) = (w1, false)) as Hmerge.
  { eapply merge_missing_false; [|done..].
    cbn [files w1]. by rewrite lookup_insert_eq. }
  split; [done|]. by apply process_file_fallback.
Qed.

(** C3 (amended): when the merge of a converted file raises, whatever the
    exception, it returns [False] without touching the output directory,
    and the loop body treats the file as it treats missing columns: the
    temporary file is renamed to [<stem>.csv], the file counts as a success
    and no error is recorded. *)
Theorem merge_exception_fallback (st : RunState) (xlsx : XlsxFile V)
    (worksheet : Worksheet V) (msg : str) :
  let csv_data :=
    fill_answer_instruction_column (flatten cell_str worksheet) in
  let w1 := {| files := <[temp_name xlsx := csv_data]> (files (world st));
               locked := locked (world st) |} in
  workbook xlsx = Ok worksheet →
  temp_name xlsx ∉ locked (world st) →
  (merge_body w1 (temp_name xlsx) (processed_name xlsx)).2 = Raise msg →
  merge_columns_to_question_info w1 (temp_name xlsx) (processed_name xlsx)
  = (w1, false)
  ∧ let st' := process_file st xlsx in
    success st' = success st + 1
    ∧ errors st' = errors st
    ∧ files (world st') !! plain_name xlsx = Some csv_data
    ∧ files (world st') !! temp_name xlsx = None
    ∧ files (world st') !! processed_name xlsx
      = files (world st) !! processed_name xlsx.
Proof.
  intros csv_data w1 Hwb Hfree Hraise.
  pose proof (merge_raise_false _ _ _ _ Hraise) as Hmerge.
  split; [done|]. by apply process_file_fallback.
Qed.

End WorkflowFacts.

Lemma missing_columns_fallback_witness :
  let csv_data := fill_answer_instruction_column (flatten id notes_sheet) in
  let w1 := {| files := <[temp_name notes_file := csv_data]> ∅;
               locked := ∅ |} in
  merge_columns_to_question_info plain_read_csv plain_to_csv w1
    (temp_name notes_file) (processed_name notes_file)
  = (w1, false)
  ∧ let st' := process_file id plain_read_csv plain_to_csv
                 (start empty_world) notes_file in
    success st' = 0 + 1
    ∧ errors st' = []
    ∧ files (world st') !! plain_name notes_file = Some csv_data
    ∧ files (world st') !! temp_name notes_file = None
    ∧ files (world st') !! processed_name notes_file
      = (∅ : gmap str grid) !! processed_name notes_file.
Proof.
  eapply (missing_columns_fallback id plain_read_csv plain_to_csv
            (start empty_world) notes_file notes_sheet).
  - reflexivity.
  - apply not_elem_of_empty.
  - reflexivity.
  - intros H. apply Forall_cons in H as [H _].
    apply (bool_decide_pack _) in H. by vm_compute in H.
Defined.

(** C3, as stated, fails: when [to_csv] raises because the output name
    cannot be written, the merge returns [False] like it does for missing
    columns, and the loop body renames the temporary file and counts the
    file as a success without recording an error. *)
Lemma merge_exception_counterexample :
  let csv_data :=
    fill_answer_instruction_column (flatten id question_sheet) in
  let w1 := {| files := {[ temp_name question_file := csv_data ]};
               locked := locked locked_world |} in
  (merge_body plain_read_csv plain_to_csv w1
     (temp_name question_file) (processed_name question_file)).2
  = Raise (u "Permission denied")
  ∧ let '(w, summary) :=
      process_all_files id plain_read_csv plain_to_csv
        (Some [question_file]) locked_world in
    sum_success summary = 1
    ∧ sum_total summary = 1
    ∧ sum_errors summary = []
    ∧ files w !! u "q.csv" = Some csv_data
    ∧ files w !! u "temp_q.csv" = None
    ∧ files w !! u "q_processed.csv" = None.
Proof. by vm_compute. Qed.

Lemma merge_exception_fallback_witness :
  let csv_data :=
    fill_answer_instruction_column (flatten id question_sheet) in
  let w1 := {| files := <[temp_name question_file := csv_data]> ∅;
               locked := locked locked_world |} in
  merge_columns_to_question_info plain_read_csv plain_to_csv w1
    (temp_name question_file) (processed_name question_file)
  = (w1, false)
  ∧ let st' := process_file id plain_read_csv plain_to_csv
                 (start locked_world) question_file in
    success st' = 0 + 1
    ∧ errors st' = []
    ∧ files (world st') !! plain_name question_file = Some csv_data
    ∧ files (world st') !! temp_name question_file = None
    ∧ files (world st') !! processed_name question_file
      = (∅ : gmap str grid) !! processed_name question_file.
Proof.
  eapply (merge_exception_fallback id plain_read_csv plain_to_csv
            (start locked_world) question_file question_sheet).
  - reflexivity.
  - apply (bool_decide_unpack _). by vm_compute.
  - by vm_compute.
Defined.

(* ===================================================================== *)
(** * Further properties of the fill stage *)
(* ===================================================================== *)

(** ** Finding the instructions column *)

Lemma starts_with_spec (p s : str) :
  starts_with p s = true ↔ ∃ post, s = p ++ post.
Proof.
  revert s. induction p as [|a p IH]; intros s.
  - split; [by exists s|done].
  - destruct s as [|b s]; cbn [starts_with].
    + split; [done|]. by intros [post ?].
    + rewrite andb_true_iff, N.eqb_eq, IH. split.
      * intros [-> [post ->]]. by exists post.
      * intros [post [= -> ->]]. split; [done|by exists post].
Qed.

Lemma contains_spec (p s : str) :
  contains p s = true ↔ ∃ pre post, s = pre ++ p ++ post.
Proof.
  induction s as [|b s IH].
  - cbn [contains]. rewrite orb_false_r, starts_with_spec. split.
    + intros [post ->]. by exists [], post.
    + intros (pre & post & H). destruct pre; [by exists post|done].
  - cbn [contains]. rewrite orb_true_iff, starts_with_spec, IH. split.
    + intros [[post ->]|(pre & post & ->)].
      * by exists [], post.
      * by exists (b :: pre), post.
    + intros ([|a pre] & post & H).
      * left. by exists post.
      * right. injection H as -> ->. by exists pre, post.
Qed.

Lemma marker_test (header : str) :
  truthy header && contains ANSWER_INSTRUCTION header = true
  ↔ has_marker header.
Proof.
  unfold has_marker. rewrite <- contains_spec. destruct header; [|done].
  by cbv.
Qed.

Lemma find_instruction_col_spec (i idx : nat) (header_row : row) :
  find_instruction_col i header_row = Some idx ↔
  ∃ k header, idx = i + k ∧ header_row !! k = Some header
    ∧ has_marker header
    ∧ ∀ j other, j < k → header_row !! j = Some other → ¬ has_marker other.
Proof.
  revert i. induction header_row as [|first rest IH]; intros i.
  - split; [done|]. by intros (k & header & _ & ? & _).
  - cbn [find_instruction_col].
    destruct (truthy first && contains ANSWER_INSTRUCTION first) eqn:Htest.
    + apply marker_test in Htest. split.
      * intros [= <-]. exists 0, first. split_and!; [lia|done|done|].
        intros j other Hj. lia.
      * intros ([|k] & header & -> & Hk & Hm & Hfirst).
        -- f_equal. lia.
        -- destruct (Hfirst 0 first); [lia|done|done].
    + assert (¬ has_marker first) as Hno.
      { rewrite <- marker_test. by rewrite Htest. }
      rewrite IH. split.
      * intros (k & header & -> & Hk & Hm & Hfirst).
        exists (S k), header. split_and!; [lia|done|done|].
        intros [|j] other Hj Hother; simpl in Hother.
        -- by simplify_eq.
        -- apply (Hfirst j); [lia|done].
      * intros ([|k] & header & -> & Hk & Hm & Hfirst); simpl in Hk.
        -- by simplify_eq.
        -- exists k, header. split_and!; [lia|done|done|].
           intros j other Hj Hother. apply (Hfirst (S j)); [lia|done].
Qed.

(** X1: the column the fill stage works on is the first one whose header
    text contains [答题说明] as a substring; a later header with the marker
    is never chosen. *)
Theorem find_instruction_col_first (header_row : row) (idx : nat) :
  find_instruction_col 0 header_row = Some idx ↔
  ∃ header, header_row !! idx = Some header ∧ has_marker header
    ∧ ∀ j other, j < idx → header_row !! j = Some other →
        ¬ has_marker other.
Proof.
  rewrite find_instruction_col_spec. split.
  - intros (k & header & -> & ?). by exists header.
  - intros (header & ?). by exists idx, header.
Qed.

Lemma find_instruction_col_none (i : nat) (header_row : row) :
  Forall (λ header, ¬ has_marker header) header_row →
  find_instruction_col i header_row = None.
Proof.
  intros Hnone. destruct (find_instruction_col i header_row) as [idx|] eqn:H;
    [|done].
  apply find_instruction_col_spec in H as (k & header & _ & Hk & Hm & _).
  by apply (proj1 (Forall_lookup _ _) Hnone k header) in Hm.
Qed.

(** X2: when no header cell contains the marker, the grid is returned as it
    is: no cell is filled and no row or column is cut. *)
Theorem fill_without_marker (header_row : row) (rest : grid) :
  Forall (λ header, ¬ has_marker header) header_row →
  fill_answer_instruction_column (header_row :: rest) = header_row :: rest.
Proof.
  intros Hnone. unfold fill_answer_instruction_column.
  rewrite (find_instruction_col_none 0) by done. by destruct rest.
Qed.

Lemma fill_without_marker_witness :
  fill_answer_instruction_column
    [[u "id"; u "note"]; [u "1"; []; u "extra"]; [[]; []]]
  = [[u "id"; u "note"]; [u "1"; []; u "extra"]; [[]; []]].
Proof.
  apply fill_without_marker.
  repeat constructor; rewrite <- marker_test; by vm_compute.
Defined.

(** ** What the fill stage keeps *)

Lemma length_fill_le (csv_data : grid) :
  length (fill_answer_instruction_column csv_data) ≤ length csv_data.
Proof.
  destruct csv_data as [|header_row rest]; [done|].
  destruct (find_instruction_col 0 header_row) as [idx|] eqn:Hfind.
  - rewrite (length_fill_found _ _ idx) by done.
    apply max_rows_other_cols_le.
  - unfold fill_answer_instruction_column. rewrite Hfind. by destruct rest.
Qed.

Lemma fill_first_row (header_row : row) (rest : grid) :
  fill_answer_instruction_column (header_row :: rest) !! 0 = Some header_row.
Proof.
  destruct (decide (rest = [])) as [->|Hne]; [done|].
  destruct (find_instruction_col 0 header_row) as [idx|] eqn:Hfind.
  - by rewrite (fill_found idx).
  - unfold fill_answer_instruction_column. rewrite Hfind. by destruct rest.
Qed.

(** X3: the header row is never changed, and the returned grid has at least
    one row and at most as many rows as the grid given. *)
Theorem fill_keeps_header (header_row : row) (rest : grid) :
  let out := fill_answer_instruction_column (header_row :: rest) in
  out !! 0 = Some header_row ∧ 1 ≤ length out ≤ S (length rest).
Proof.
  intros out. pose proof (length_fill_le (header_row :: rest)) as Hle.
  fold out in Hle. simpl in Hle.
  pose proof (fill_first_row header_row rest) as Hhead. fold out in Hhead.
  split; [done|]. apply lookup_lt_Some in Hhead. lia.
Qed.

Lemma lookup_pad_row (idx c : nat) (current : row) (cell : str) :
  pad_row idx current !! c = Some cell →
  current !! c = Some cell ∨ (current !! c = None ∧ cell = []).
Proof.
  unfold pad_row. intros H. apply lookup_app_Some in H as [H|[Hlen H]].
  - by left.
  - right. apply lookup_replicate in H as [-> _].
    split; [by apply lookup_ge_None_2|done].
Qed.

Lemma lookup_pad_row_present (idx c : nat) (current : row) (cell : str) :
  current !! c = Some cell → pad_row idx current !! c = Some cell.
Proof. intros H. unfold pad_row. by apply lookup_app_l_Some. Qed.

Lemma fill_row_other_column (idx c : nat) (last : str) (current : row) :
  c ≠ idx →
  (fill_row idx last current).1 !! c = pad_row idx current !! c.
Proof.
  intros Hc. unfold fill_row. destruct (nonblank _); [done|].
  destruct (truthy last); [|done]. cbn [fst].
  by rewrite list_lookup_insert_ne.
Qed.

(** The rows of the returned grid, when the column is found: the header,
    then the filled rows cut to the header's length. *)
Lemma fill_found_lookup (header_row : row) (rest : grid) (idx i : nat)
    (r r0 : row) :
  find_instruction_col 0 header_row = Some idx →
  fill_answer_instruction_column (header_row :: rest) !! S i = Some r →
  rest !! i = Some r0 →
  ∃ last, r = take (length header_row) (fill_row idx last r0).1.
Proof.
  intros Hfind Hout Hin.
  assert (rest ≠ []) as Hne by (by intros ->).
  rewrite (fill_found idx) in Hout by done. simpl in Hout.
  rewrite list_lookup_fmap in Hout.
  destruct (fill_rows _ _ _ !! i) as [r'|] eqn:Hi; [|done].
  simpl in Hout. simplify_eq.
  apply fill_rows_lookup in Hi as (r1 & last & Hr1 & ->).
  apply lookup_take_Some in Hr1 as [Hr1 _]. simplify_eq. by exists last.
Qed.

(** X4: outside the instructions column nothing is rewritten: a cell of the
    returned grid in another column is the cell the grid had at that place,
    or an empty cell added as padding where the row was too short. *)
Theorem fill_other_columns (header_row : row) (rest : grid) (idx i c : nat)
    (r r0 : row) :
  find_instruction_col 0 header_row = Some idx →
  fill_answer_instruction_column (header_row :: rest) !! i = Some r →
  (header_row :: rest) !! i = Some r0 →
  c ≠ idx →
  (∀ cell, r0 !! c = Some cell → c < length header_row → r !! c = Some cell)
  ∧ (∀ cell, r !! c = Some cell →
       r0 !! c = Some cell ∨ (r0 !! c = None ∧ cell = [])).
Proof.
  intros Hfind Hout Hin Hc.
  destruct i as [|i].
  { rewrite fill_first_row in Hout. simpl in Hin. simplify_eq.
    split; [done|].
    intros cell ?. by left. }
  simpl in Hin.
  destruct (fill_found_lookup _ _ _ _ _ _ Hfind Hout Hin) as [last ->].
  split.
  - intros cell Hcell Hlt. rewrite lookup_take_lt by done.
    rewrite fill_row_other_column by done.
    by apply lookup_pad_row_present.
  - intros cell Hcell. apply lookup_take_Some in Hcell as [Hcell _].
    rewrite fill_row_other_column in Hcell by done.
    by apply lookup_pad_row in Hcell.
Qed.

Lemma fill_other_columns_witness :
  (∀ cell, [u "1"; []; u "z"] !! 0 = Some cell →
     0 < length [u "id"; ANSWER_INSTRUCTION] → [u "1"; []] !! 0 = Some cell)
  ∧ (∀ cell, [u "1"; []] !! 0 = Some cell →
       [u "1"; []; u "z"] !! 0 = Some cell
       ∨ ([u "1"; []; u "z"] !! 0 = None ∧ cell = [])).
Proof.
  apply (fill_other_columns [u "id"; ANSWER_INSTRUCTION]
           [[u "1"; []; u "z"]] 1 1 0); [reflexivity..|lia].
Defined.

(** ** The instructions column after the fill *)

Lemma cell_at_pad_row (idx : nat) (current : row) :
  cell_at idx (pad_row idx current) = cell_at idx current.
Proof.
  unfold cell_at, pad_row.
  destruct (current !! idx) as [v|] eqn:Hv.
  - by rewrite (lookup_app_l_Some _ _ _ _ Hv).
  - apply lookup_ge_None_1 in Hv.
    rewrite lookup_app_r by done.
    by rewrite lookup_replicate_2 by lia.
Qed.

Lemma pad_row_lookup_idx (idx : nat) (current : row) :
  pad_row idx current !! idx = Some (cell_at idx current).
Proof.
  rewrite <- cell_at_pad_row. unfold cell_at.
  destruct (lookup_lt_is_Some_2 (pad_row idx current) idx) as [v ->];
    [rewrite length_pad_row; lia|done].
Qed.

(** The cell a finished row holds in the column and the value it hands on,
    in the three cases of the loop body. *)
Lemma fill_row_cell (idx : nat) (last : str) (current : row) :
  last_ok last →
  let v := cell_at idx current in
  let '(current', last') := fill_row idx last current in
  current' !! idx = Some (if nonblank v then v
                          else if truthy last then last else v)
  ∧ last' = carry idx current'.
Proof.
  intros Hlast v. unfold fill_row.
  pose proof (pad_row_lookup_idx idx current) as Hpad. fold v in Hpad.
  rewrite Hpad. change (default [] (Some v)) with v.
  assert (idx < length (pad_row idx current)) as Hlt
    by (by eapply lookup_lt_Some).
  destruct (nonblank v) eqn:Hv.
  - split; [done|]. unfold carry, cell_at. rewrite Hpad.
    change (default [] (Some v)) with v. by rewrite Hv.
  - destruct (truthy last) eqn:Ht.
    + rewrite list_lookup_insert_eq by done. split; [done|].
      unfold carry, cell_at. rewrite list_lookup_insert_eq by done.
      change (default [] (Some last)) with last.
      destruct Hlast as [-> | Hl]; [done|by rewrite Hl].
    + split; [done|]. unfold carry, cell_at. rewrite Hpad.
      change (default [] (Some v)) with v. rewrite Hv.
      by destruct last.
Qed.

Lemma fill_rows_next (idx : nat) (last : str) (rows : grid) (i : nat)
    (r r' r0' : row) :
  last_ok last →
  fill_rows idx last rows !! i = Some r →
  fill_rows idx last rows !! S i = Some r' →
  rows !! S i = Some r0' →
  r' = (fill_row idx (carry idx r) r0').1 ∧ last_ok (carry idx r).
Proof.
  revert last i. induction rows as [|current rest IH]; intros last i Hlast;
    [done|].
  cbn [fill_rows].
  pose proof (fill_row_cell idx last current Hlast) as Hcell.
  pose proof (fill_row_last_ok idx last current Hlast) as Hok.
  destruct (fill_row idx last current) as [current' last'].
  cbn [snd] in Hok. destruct Hcell as [_ ->].
  destruct i as [|i]; simpl.
  - intros [= <-] Hnext Hin. destruct rest as [|second rest']; [done|].
    simpl in Hin. simplify_eq. cbn [fill_rows] in Hnext.
    destruct (fill_row idx (carry idx current') r0') as [x y] eqn:Hx.
    simpl in Hnext. by simplify_eq.
  - intros Hi Hnext Hin. by apply (IH (carry idx current') i).
Qed.

Lemma take_lookup_idx (idx width : nat) (current : row) :
  idx < width → cell_at idx (take width current) = cell_at idx current.
Proof. intros H. unfold cell_at. by rewrite lookup_take_lt. Qed.

(** The rows [i] and [i + 1] of the returned grid below the header: the
    second is the input row filled with what the first hands on. *)
Lemma fill_found_next (header_row : row) (rest : grid) (idx i : nat)
    (r r' r0' : row) :
  find_instruction_col 0 header_row = Some idx →
  let out := fill_answer_instruction_column (header_row :: rest) in
  out !! S i = Some r → out !! S (S i) = Some r' →
  rest !! S i = Some r0' →
  r' = take (length header_row) (fill_row idx (carry idx r) r0').1
  ∧ last_ok (carry idx r).
Proof.
  intros Hfind out Hr Hr' Hin.
  pose proof (find_instruction_col_lt _ _ Hfind) as Hidx.
  assert (rest ≠ []) as Hne by (by intros ->).
  unfold out in Hr, Hr'. rewrite (fill_found idx) in Hr, Hr' by done.
  simpl in Hr, Hr'. rewrite list_lookup_fmap in Hr, Hr'.
  destruct (fill_rows _ _ _ !! i) as [f|] eqn:Hf; [|done].
  destruct (fill_rows _ _ _ !! S i) as [f'|] eqn:Hf'; [|done].
  simpl in Hr, Hr'. simplify_eq.
  assert (take (max_rows_other_cols idx (header_row :: rest) - 1) rest
            !! S i = Some r0') as Hin'.
  { apply fill_rows_lookup in Hf' as (x & _ & Hx & _).
    pose proof Hx as Hx'. apply lookup_take_Some in Hx' as [Hx' _].
    by simplify_eq. }
  destruct (fill_rows_next idx [] _ i f f' r0' ltac:(by left) Hf Hf' Hin')
    as [-> Hok].
  unfold carry. by rewrite take_lookup_idx.
Qed.

(** X5: a non-blank cell of the instructions column is never overwritten:
    in every retained row it is returned as it was. *)
Theorem fill_keeps_nonblank (header_row : row) (rest : grid) (idx i : nat)
    (r r0 : row) (v : str) :
  find_instruction_col 0 header_row = Some idx →
  fill_answer_instruction_column (header_row :: rest) !! i = Some r →
  (header_row :: rest) !! i = Some r0 →
  r0 !! idx = Some v → nonblank v = true →
  r !! idx = Some v.
Proof.
  intros Hfind Hout Hin Hv Hnb.
  destruct i as [|i].
  { rewrite fill_first_row in Hout. simpl in Hin. by simplify_eq. }
  simpl in Hin.
  destruct (fill_found_lookup _ _ _ _ _ _ Hfind Hout Hin) as [last ->].
  rewrite lookup_take_lt by (by eapply find_instruction_col_lt).
  by rewrite (fill_row_present _ _ _ _ Hv), Hnb.
Qed.

Lemma fill_keeps_nonblank_witness :
  [u "3"; u "Y"] !! 1 = Some (u "Y").
Proof.
  apply (fill_keeps_nonblank [u "id"; ANSWER_INSTRUCTION]
           [[u "1"; u "X"]; [u "2"; []]; [u "3"; u "Y"]] 1 3
           [u "3"; u "Y"] [u "3"; u "Y"] (u "Y")); reflexivity.
Defined.

(** X6: a blank or missing instructions cell directly below a row whose
    returned cell is non-blank takes that cell's value. *)
Theorem fill_copies_down (header_row : row) (rest : grid) (idx i : nat)
    (r r' r0' : row) (v : str) :
  find_instruction_col 0 header_row = Some idx →
  let out := fill_answer_instruction_column (header_row :: rest) in
  out !! S i = Some r → out !! S (S i) = Some r' →
  rest !! S i = Some r0' →
  r !! idx = Some v → nonblank v = true →
  nonblank (cell_at idx r0') = false →
  r' !! idx = Some v.
Proof.
  intros Hfind out Hr Hr' Hin Hv Hnb Hblank.
  destruct (fill_found_next _ _ _ _ _ _ _ Hfind Hr Hr' Hin) as [-> Hok].
  rewrite lookup_take_lt by (by eapply find_instruction_col_lt).
  pose proof (fill_row_cell idx (carry idx r) r0' Hok) as Hcell.
  destruct (fill_row idx (carry idx r) r0') as [x y]. cbn [fst].
  destruct Hcell as [-> _]. rewrite Hblank.
  unfold carry, cell_at. rewrite Hv. cbn. rewrite Hnb.
  by rewrite (nonblank_truthy _ Hnb).
Qed.

Lemma fill_copies_down_witness :
  [u "2"; u "X"] !! 1 = Some (u "X").
Proof.
  apply (fill_copies_down [u "id"; ANSWER_INSTRUCTION]
           [[u "1"; u "X"]; [u "2"]; [u "3"; u "Y"]] 1 0
           [u "1"; u "X"] [u "2"; u "X"] [u "2"] (u "X")); reflexivity.
Defined.

(** X7: below the header, once a returned row has a non-blank instructions
    cell, every later returned row has one too: the fill leaves no gap. *)
Theorem fill_leaves_no_gap (header_row : row) (rest : grid) (idx i j : nat)
    (r r' : row) :
  find_instruction_col 0 header_row = Some idx →
  let out := fill_answer_instruction_column (header_row :: rest) in
  out !! S i = Some r → out !! S j = Some r' → i ≤ j →
  nonblank (cell_at idx r) = true →
  nonblank (cell_at idx r') = true.
Proof.
  intros Hfind out Hr Hr' Hij Hnb.
  revert r' Hr'. induction Hij as [|j Hij IH]; intros r' Hr'.
  { by simplify_eq. }
  destruct (lookup_lt_is_Some_2 out (S j)) as [m Hm].
  { apply lookup_lt_Some in Hr'. lia. }
  specialize (IH m Hm).
  destruct (lookup_lt_is_Some_2 rest (S j)) as [r0' Hin].
  { apply lookup_lt_Some in Hr'.
    pose proof (length_fill_le (header_row :: rest)) as Hle.
    fold out in Hle. simpl in Hle. lia. }
  destruct (fill_found_next _ _ _ _ _ _ _ Hfind Hm Hr' Hin) as [-> Hok].
  rewrite take_lookup_idx by (by eapply find_instruction_col_lt).
  pose proof (fill_row_cell idx (carry idx m) r0' Hok) as Hcell.
  destruct (fill_row idx (carry idx m) r0') as [x y]. cbn [fst].
  destruct Hcell as [Hx _]. unfold cell_at at 1. rewrite Hx. cbn.
  destruct (nonblank (cell_at idx r0')) eqn:Hown; [done|].
  unfold carry. rewrite IH. by rewrite (nonblank_truthy _ IH).
Qed.

Lemma fill_leaves_no_gap_witness :
  nonblank (cell_at 1 [u "3"; u "X"]) = true.
Proof.
  apply (fill_leaves_no_gap [u "id"; ANSWER_INSTRUCTION]
           [[u "1"; u "X"]; [u "2"]; [u "3"; u " "]] 1 0 2
           [u "1"; u "X"] [u "3"; u "X"]); try reflexivity. lia.
Defined.

(* ===================================================================== *)
(** * Further properties of the flattening *)
(* ===================================================================== *)

Lemma flatten_shape {V : Type} (py_str : V → str) (ws : Worksheet V) :
  length (flatten py_str ws) = Z.to_nat (ws_max_row ws)
  ∧ Forall (λ r : row, length r = Z.to_nat (ws_max_column ws))
      (flatten py_str ws).
Proof.
  unfold flatten. split.
  - by rewrite length_fmap, length_seqZ.
  - apply Forall_fmap, Forall_forall. intros r _. cbn.
    by rewrite length_fmap, length_seqZ.
Qed.

Lemma fill_rectangular (width : nat) (csv_data : grid) :
  Forall (λ r : row, length r = width) csv_data →
  Forall (λ r : row, length r = width)
    (fill_answer_instruction_column csv_data).
Proof.
  intros Hrect. destruct csv_data as [|header_row rest]; [done|].
  destruct (decide (rest = [])) as [->|Hne]; [done|].
  destruct (find_instruction_col 0 header_row) as [idx|] eqn:Hfind.
  2:{ unfold fill_answer_instruction_column. rewrite Hfind. by destruct rest. }
  apply Forall_cons in Hrect as [Hhead Hrest].
  pose proof (find_instruction_col_lt _ _ Hfind) as Hidx.
  apply Forall_lookup. intros [|i] r Hr.
  - rewrite fill_first_row in Hr. by simplify_eq.
  - destruct (lookup_lt_is_Some_2 rest i) as [r0 Hin].
    { pose proof (lookup_lt_Some _ _ _ Hr) as Hlt.
      pose proof (length_fill_le (header_row :: rest)) as Hle.
      cbn [length] in Hle. lia. }
    destruct (fill_found_lookup _ _ _ _ _ _ Hfind Hr Hin) as [last ->].
    rewrite length_take, length_fill_row.
    rewrite (proj1 (Forall_lookup _ _) Hrest i r0 Hin). lia.
Qed.

(** X8: the grid a conversion writes is rectangular: flattening yields
    [max_row] rows of [max_column] cells, and after the fill stage every
    row still has [max_column] cells and no row has been added. *)
Theorem converted_grid_rectangular {V : Type} (py_str : V → str)
    (ws : Worksheet V) :
  let csv_data := flatten py_str ws in
  let out := fill_answer_instruction_column csv_data in
  length csv_data = Z.to_nat (ws_max_row ws)
  ∧ Forall (λ r : row, length r = Z.to_nat (ws_max_column ws)) csv_data
  ∧ Forall (λ r : row, length r = Z.to_nat (ws_max_column ws)) out
  ∧ length out ≤ Z.to_nat (ws_max_row ws).
Proof.
  intros csv_data out.
  destruct (flatten_shape py_str ws) as [Hrows Hcols].
  split_and!; [done|done|by apply fill_rectangular|].
  rewrite <- Hrows. apply length_fill_le.
Qed.

(** X9: the value stored in a cell that a merged range covers, other than
    a top-left cell, is never read: replacing it changes neither what any
    address resolves to nor the flattened grid. *)
Theorem covered_value_ignored {V : Type} (py_str : V → str)
    (ws : Worksheet V) (r c : Z) (v : V) :
  (∃ mr, mr ∈ merged_ranges ws ∧ in_range r c mr = true) →
  (∀ mr, mr ∈ merged_ranges ws → (min_row mr, min_col mr) ≠ (r, c)) →
  (∀ r' c', get_merged_cell_value (with_value ws r c v) r' c'
            = get_merged_cell_value ws r' c')
  ∧ flatten py_str (with_value ws r c v) = flatten py_str ws.
Proof.
  intros (mr & Hel & Hin) Htop.
  assert (∀ r' c', get_merged_cell_value (with_value ws r c v) r' c'
                   = get_merged_cell_value ws r' c') as Hsame.
  { intros r' c'. unfold get_merged_cell_value, cell_value.
    cbn [with_value merged_ranges cells].
    destruct (first_containing r' c' (merged_ranges ws)) as [mr'|] eqn:Hfirst.
    - apply first_containing_Some in Hfirst as [Hel' _].
      rewrite lookup_insert_ne; [done|]. intros Heq.
      by apply (Htop mr' Hel').
    - rewrite lookup_insert_ne; [done|]. intros [= <- <-].
      rewrite first_containing_None in Hfirst.
      by rewrite (Hfirst mr Hel) in Hin. }
  split; [done|]. unfold flatten. cbn [with_value ws_max_row ws_max_column].
  apply list_fmap_ext. intros _ r' _. apply list_fmap_ext. intros _ c' _.
  by rewrite Hsame.
Qed.

Lemma covered_value_ignored_witness :
  let a1_b2 := {| min_row := 1; min_col := 1; max_row := 2; max_col := 2 |} in
  let ws := {| cells := {[ (1, 1)%Z := u "x" ]}; merged_ranges := [a1_b2];
               ws_max_row := 2; ws_max_column := 2 |} in
  (∀ r' c', get_merged_cell_value (with_value ws 2 1 (u "hidden")) r' c'
            = get_merged_cell_value ws r' c')
  ∧ flatten id (with_value ws 2 1 (u "hidden")) = flatten id ws.
Proof.
  intros a1_b2 ws. apply (covered_value_ignored id ws 2 1 (u "hidden")).
  - exists a1_b2. split; [apply list_elem_of_here|reflexivity].
  - by intros mr ->%list_elem_of_singleton.
Defined.

(* ===================================================================== *)
(** * Further properties of the merger *)
(* ===================================================================== *)

(** X10: the merge is refused exactly when one of the four required
    headers is missing from the record set; nothing else about the records
    can make it fail. *)
Theorem merge_refused_iff (df : DataFrame) :
  merge_frame df = None ↔
  ∃ col, col ∈ required_columns ∧ col ∉ column_names df.
Proof.
  unfold merge_frame. split.
  - destruct (bool_decide (missing_columns df = [])) eqn:Hm; [done|].
    intros _. apply bool_decide_eq_false in Hm.
    rewrite missing_columns_nil in Hm.
    apply not_Forall_Exists in Hm; [|apply _].
    apply Exists_exists in Hm as (col & Hin & Hnot). by exists col.
  - intros (col & Hin & Hnot). rewrite bool_decide_eq_false_2; [done|].
    rewrite missing_columns_nil, Forall_forall. intros Hall.
    by apply Hnot, Hall.
Qed.

Lemma set_column_names (col : str) (values : list cell)
    (cols : list (str * list cell)) :
  (set_column col values cols).*1
  = if decide (col ∈ cols.*1) then cols.*1 else cols.*1 ++ [col].
Proof.
  induction cols as [|[n vs] rest IH]; [done|].
  cbn [set_column fmap list_fmap fst].
  destruct (decide (n = col)) as [->|Hne].
  - rewrite decide_True; [done|]. apply list_elem_of_here.
  - cbn [fmap list_fmap fst]. rewrite IH.
    destruct (decide (col ∈ rest.*1)) as [Hin|Hnot].
    + rewrite decide_True; [done|]. by apply list_elem_of_further.
    + rewrite decide_False; [done|].
      intros [?|?]%elem_of_cons; [by apply Hne|done].
Qed.

Lemma set_column_find_other (col other : str) (values : list cell)
    (cols : list (str * list cell)) :
  other ≠ col →
  list_find (λ p : str * list cell, p.1 = other) (set_column col values cols)
  = list_find (λ p : str * list cell, p.1 = other) cols.
Proof.
  intros Hne. induction cols as [|[n vs] rest IH].
  - cbn. by rewrite decide_False.
  - cbn [set_column]. destruct (decide (n = col)) as [->|Hn].
    + cbn. by rewrite !decide_False by (by intros ->).
    + cbn. destruct (decide (n = other)); [done|]. by rewrite IH.
Qed.

(** X11: a merge that goes through changes nothing but the field
    [题目信息]: the record count, the names and order of the fields already
    present, and every value of every other field stay as they were. *)
Theorem merge_keeps_other_fields (df df' : DataFrame) :
  merge_frame df = Some df' →
  nrows df' = nrows df
  ∧ column_names df'
    = (if decide (COL_QUESTION_INFO ∈ column_names df)
       then column_names df else column_names df ++ [COL_QUESTION_INFO])
  ∧ ∀ col i, col ≠ COL_QUESTION_INFO →
      row_get df' i col = row_get df i col.
Proof.
  unfold merge_frame. destruct (bool_decide _); [|done]. intros [= <-].
  split_and!; [done|apply set_column_names|].
  intros col i Hne. unfold row_get. cbn [columns].
  by rewrite set_column_find_other.
Qed.

Lemma merge_keeps_other_fields_witness :
  ∃ df', merge_frame sample_frame_with_info = Some df'
    ∧ nrows df' = 2
    ∧ column_names df' = column_names sample_frame_with_info
    ∧ ∀ col i, col ≠ COL_QUESTION_INFO →
        row_get df' i col = row_get sample_frame_with_info i col.
Proof.
  eexists. split; [reflexivity|].
  eapply (merge_keeps_other_fields sample_frame_with_info). reflexivity.
Defined.

(** X12: after a merge that goes through, every record holds its block in
    the field [题目信息], as text and never as a missing value, whether the
    field was added or overwritten. *)
Theorem merge_sets_every_record (df df' : DataFrame) (i : nat) :
  merge_frame df = Some df' → i < nrows df →
  row_get df' i COL_QUESTION_INFO = Val (question_info df i).
Proof.
  unfold merge_frame. destruct (bool_decide _); [|done]. intros [= <-] Hi.
  unfold row_get. cbn [columns].
  destruct (set_column_find COL_QUESTION_INFO
              (Val <$> question_info_list df) (columns df)) as [k ->].
  unfold question_info_list.
  by rewrite !list_lookup_fmap, lookup_seq_lt.
Qed.

Lemma merge_sets_every_record_witness :
  ∃ df', merge_frame sample_frame_with_info = Some df'
    ∧ row_get df' 0 COL_QUESTION_INFO
      = Val (question_info sample_frame_with_info 0).
Proof.
  eexists. split; [reflexivity|].
  apply (merge_sets_every_record sample_frame_with_info); [reflexivity|].
  simpl. lia.
Defined.

Lemma labeled_nil (label : str) (v : cell) :
  labeled label v = [] ↔ filled v = false.
Proof. unfold labeled. by destruct (filled v). Qed.

Lemma option_lines_nil (df : DataFrame) (i : nat) :
  option_lines df i = [] ↔
  Forall (λ col, populated df i col = false) option_columns.
Proof.
  unfold option_lines, populated. generalize option_columns. intros cols.
  induction cols as [|col rest IH]; [by split; [constructor|]|].
  cbn [mbind list_bind]. rewrite Forall_cons, <- IH.
  destruct (has_column col df && filled (row_get df i col)).
  - split; [done|]. by intros [? _].
  - cbn [app]. split; [by intros ?; split|by intros [_ ?]].
Qed.

Lemma join_nil (sep : str) (parts : list str) :
  join sep parts = [] → Forall (λ part, part = []) parts.
Proof.
  induction parts as [|part rest IH]; [constructor|].
  cbn [join]. destruct rest as [|second rest'].
  - intros ->. by repeat constructor.
  - intros H. apply app_eq_nil in H as [-> H].
    apply app_eq_nil in H as [_ H]. constructor; [done|by apply IH].
Qed.

(** X13: the block of a record is the empty string exactly when nothing
    qualifies: the four required fields are missing or blank, the
    instructions field is absent, missing or blank, and so is every option
    field.  A single filled field makes the block non-empty. *)
Theorem question_info_empty_iff (df : DataFrame) (i : nat) :
  question_info df i = [] ↔
  Forall (λ col, filled (row_get df i col) = false) required_columns
  ∧ populated df i COL_INSTRUCTION = false
  ∧ Forall (λ col, populated df i col = false) option_columns.
Proof.
  assert (info_parts df i = [] ↔
          Forall (λ col, filled (row_get df i col) = false) required_columns
          ∧ populated df i COL_INSTRUCTION = false
          ∧ Forall (λ col, populated df i col = false) option_columns)
    as Hparts.
  { unfold info_parts, required_columns.
    rewrite !Forall_cons, Forall_nil, <- option_lines_nil.
    rewrite !app_nil, !labeled_nil.
    assert ((if has_column COL_INSTRUCTION df
             then labeled LABEL_INSTRUCTION (row_get df i COL_INSTRUCTION)
             else []) = [] ↔ populated df i COL_INSTRUCTION = false) as ->.
    { unfold populated. destruct (has_column COL_INSTRUCTION df); [|done].
      apply labeled_nil. }
    assert ((let options := option_lines df i in
             if bool_decide (options = []) then []
             else [LABEL_OPTIONS ++ join [10%N] options]) = []
            ↔ option_lines df i = []) as ->.
    { cbn zeta. destruct (option_lines df i) as [|line lines]; [done|].
      by rewrite bool_decide_eq_false_2. }
    tauto. }
  rewrite <- Hparts. unfold question_info.
  destruct (info_parts df i) as [|part rest] eqn:Hp.
  - by rewrite bool_decide_eq_true_2.
  - rewrite bool_decide_eq_false_2 by done. split; [|done].
    intros Hnil. apply join_nil in Hnil.
    apply Forall_cons in Hnil as [-> _].
    assert (Forall (λ part : str, part ≠ []) (info_parts df i)) as Hne.
    { unfold info_parts, labeled. rewrite !Forall_app.
      split_and!;
        repeat match goal with
               | |- context [if ?b then _ else _] => destruct b
               end;
        repeat constructor; done. }
    rewrite Hp in Hne. by apply Forall_cons in Hne as [? _].
Qed.

(* ===================================================================== *)
(** * Further properties of the workflow *)
(* ===================================================================== *)

Lemma length_filter_all {A} (P : A → Prop) `{!∀ x, Decision (P x)}
    (l : list A) :
  length (filter P l) = length l ↔ Forall P l.
Proof.
  induction l as [|x l IH]; [by split; [constructor|]|].
  rewrite filter_cons, Forall_cons. pose proof (length_filter P l) as Hle.
  destruct (decide (P x)); cbn [length].
  - rewrite <- IH. split; [intros [= ?]; by split|intros [_ ->]; done].
  - split; [lia|]. by intros [? _].
Qed.

Lemma length_filter_none {A} (P : A → Prop) `{!∀ x, Decision (P x)}
    (l : list A) :
  length (filter P l) = 0 ↔ Forall (λ x, ¬ P x) l.
Proof.
  induction l as [|x l IH]; [by split; [constructor|]|].
  rewrite filter_cons, Forall_cons.
  destruct (decide (P x)); cbn [length].
  - split; [done|]. by intros [? _].
  - rewrite IH. split; [by split|by intros [_ ?]].
Qed.

Section RunFacts.
Context {V : Type} (cell_str : V → str).
Context (read_csv : grid → result DataFrame) (to_csv : DataFrame → grid).

Abbreviation merge := (Pipeline.merge_columns_to_question_info read_csv to_csv).
Abbreviation step := (Pipeline.process_file cell_str read_csv to_csv).
Abbreviation run := (Pipeline.process_all_files cell_str read_csv to_csv).

(** The merge writes nothing but its output file. *)
Lemma merge_world (w w2 : World) (csv_path output_path : str) (b : bool) :
  merge w csv_path output_path = (w2, b) →
  locked w2 = locked w
  ∧ ∀ path, path ≠ output_path → files w2 !! path = files w !! path.
Proof.
  unfold Pipeline.merge_columns_to_question_info, Pipeline.merge_body.
  destruct (files w !! csv_path) as [content|]; [|by intros [= <- _]].
  destruct (read_csv content) as [df|msg]; [|by intros [= <- _]].
  destruct (merge_frame df) as [df'|]; [|by intros [= <- _]].
  unfold write_csv. case_bool_decide; [by intros [= <- _]|].
  intros [= <- _]. split; [done|]. intros path Hne. cbn [files].
  by rewrite lookup_insert_ne.
Qed.

Lemma convertible_true (w : World) (xlsx : XlsxFile V) :
  convertible w xlsx = true ↔
  (∃ worksheet, workbook xlsx = Ok worksheet) ∧ temp_name xlsx ∉ locked w.
Proof.
  unfold convertible. destruct (workbook xlsx) as [worksheet|msg].
  - rewrite bool_decide_eq_true. split; [by eauto|by intros [_ ?]].
  - split; [done|]. by intros [[? ?] _].
Qed.

Lemma convertible_locked (w w' : World) (xlsx : XlsxFile V) :
  locked w' = locked w → convertible w' xlsx = convertible w xlsx.
Proof. intros H. unfold convertible. by rewrite H. Qed.

(** The loop body on a file whose conversion fails. *)
Lemma step_not_convertible (st : RunState) (xlsx : XlsxFile V) :
  convertible (world st) xlsx = false →
  step st xlsx
  = {| world := world st; success := success st;
       errors := errors st ++ [convert_error xlsx] |}.
Proof.
  unfold convertible, Pipeline.process_file, convert_xlsx_to_csv, write_csv.
  destruct (workbook xlsx) as [worksheet|msg]; [|done].
  intros H. apply bool_decide_eq_false in H. apply dec_stable in H.
  by rewrite bool_decide_eq_true_2.
Qed.

(** The loop body on a file whose conversion succeeds: whatever the merge
    returns, the file counts as a success. *)
Lemma step_convertible (st : RunState) (xlsx : XlsxFile V)
    (worksheet : Worksheet V) :
  let csv_data :=
    fill_answer_instruction_column (flatten cell_str worksheet) in
  let w1 := {| files := <[temp_name xlsx := csv_data]> (files (world st));
               locked := locked (world st) |} in
  workbook xlsx = Ok worksheet →
  temp_name xlsx ∉ locked (world st) →
  ∃ w2 b,
    merge w1 (temp_name xlsx) (processed_name xlsx) = (w2, b)
    ∧ step st xlsx
      = {| world :=
             unlink_if_exists
               (if b then w2
                else {| files := <[plain_name xlsx := csv_data]>
                                   (delete (temp_name xlsx) (files w2));
                        locked := locked w2 |})
               (temp_name xlsx);
           success := success st + 1;
           errors := errors st |}.
Proof.
  intros csv_data w1 Hwb Hfree.
  destruct (merge w1 (temp_name xlsx) (processed_name xlsx)) as [w2 b]
    eqn:Hmerge.
  exists w2, b. split; [done|].
  unfold Pipeline.process_file. rewrite (convert_ok _ _ _ worksheet) by done.
  fold csv_data. fold w1. rewrite Hmerge.
  destruct b; [done|].
  destruct (merge_world _ _ _ _ _ Hmerge) as [_ Hfiles].
  unfold rename.
  rewrite (Hfiles (temp_name xlsx)) by apply temp_name_ne_processed.
  cbn [files w1]. by rewrite lookup_insert_eq.
Qed.

(** X14: when the workbook cannot be loaded or the temporary file cannot be
    written, the file adds the entry [Excel转CSV失败: <name>] to the error
    list, is not counted as a success, and the output directory is left as
    it was. *)
Theorem conversion_failure_recorded (st : RunState) (xlsx : XlsxFile V) :
  (∃ msg, workbook xlsx = Raise msg) ∨ temp_name xlsx ∈ locked (world st) →
  let st' := step st xlsx in
  world st' = world st
  ∧ success st' = success st
  ∧ errors st' = errors st ++ [MSG_CONVERT_FAILED ++ name xlsx].
Proof.
  intros Hfail st'.
  assert (convertible (world st) xlsx = false) as Hno.
  { apply not_true_is_false. rewrite convertible_true.
    intros [[worksheet Hwb] Hfree].
    destruct Hfail as [[msg Hmsg]|Hin]; [congruence|done]. }
  unfold st'. by rewrite (step_not_convertible _ _ Hno).
Qed.

(** X15: when the conversion and the merge both go through, the output
    directory gains [<stem>_processed.csv] holding the merged frame, the
    temporary file is gone, [<stem>.csv] is not touched, and the file counts
    as a success. *)
Theorem full_success (st : RunState) (xlsx : XlsxFile V)
    (worksheet : Worksheet V) (df df' : DataFrame) :
  let csv_data :=
    fill_answer_instruction_column (flatten cell_str worksheet) in
  workbook xlsx = Ok worksheet →
  temp_name xlsx ∉ locked (world st) →
  read_csv csv_data = Ok df →
  merge_frame df = Some df' →
  processed_name xlsx ∉ locked (world st) →
  let st' := step st xlsx in
  files (world st') !! processed_name xlsx = Some (to_csv df')
  ∧ files (world st') !! temp_name xlsx = None
  ∧ files (world st') !! plain_name xlsx
    = files (world st) !! plain_name xlsx
  ∧ success st' = success st + 1
  ∧ errors st' = errors st.
Proof.
  intros csv_data Hwb Hfree Hread Hmerged Hout st'.
  destruct (step_convertible st xlsx worksheet Hwb Hfree)
    as (w2 & b & Hmerge & Hstep).
  fold csv_data in Hmerge, Hstep.
  unfold Pipeline.merge_columns_to_question_info, Pipeline.merge_body
    in Hmerge.
  cbn [files] in Hmerge. rewrite lookup_insert_eq in Hmerge.
  rewrite Hread, Hmerged in Hmerge. unfold write_csv in Hmerge.
  cbn [locked] in Hmerge. rewrite bool_decide_eq_false_2 in Hmerge by done.
  injection Hmerge as <- <-.
  unfold st'. rewrite Hstep. unfold unlink_if_exists.
  cbn [world success errors files].
  pose proof (temp_name_ne_plain xlsx).
  pose proof (temp_name_ne_processed xlsx).
  pose proof (plain_name_ne_processed xlsx).
  split_and!; [|by rewrite lookup_delete_eq| |done|done].
  - by rewrite lookup_delete_ne, lookup_insert_eq.
  - by rewrite lookup_delete_ne, !lookup_insert_ne.
Qed.

(** X16: processing a file touches at most three names of the output
    directory, [temp_<stem>.csv], [<stem>_processed.csv] and [<stem>.csv];
    every other file is left as it was, whatever happens to this one. *)
Theorem other_files_untouched (st : RunState) (xlsx : XlsxFile V)
    (path : str) :
  path ≠ temp_name xlsx → path ≠ processed_name xlsx →
  path ≠ plain_name xlsx →
  files (world (step st xlsx)) !! path = files (world st) !! path
  ∧ locked (world (step st xlsx)) = locked (world st).
Proof.
  intros Htemp Hproc Hplain.
  destruct (convertible (world st) xlsx) eqn:Hconv.
  - apply convertible_true in Hconv as [[worksheet Hwb] Hfree].
    destruct (step_convertible st xlsx worksheet Hwb Hfree)
      as (w2 & b & Hmerge & ->).
    destruct (merge_world _ _ _ _ _ Hmerge) as [Hlocked Hfiles].
    cbn [locked files] in Hlocked, Hfiles.
    cbn [world]. unfold unlink_if_exists.
    destruct b; cbn [files locked]; (split; [|done]).
    + rewrite lookup_delete_ne, Hfiles by done.
      by rewrite lookup_insert_ne.
    + rewrite lookup_delete_ne, lookup_insert_ne, lookup_delete_ne, Hfiles
        by done.
      by rewrite lookup_insert_ne.
  - by rewrite (step_not_convertible _ _ Hconv).
Qed.

(** The counts after the loop over a list of files. *)
Lemma run_counts (xlsx_files : list (XlsxFile V)) (st : RunState) :
  let st' := foldl step st xlsx_files in
  locked (world st') = locked (world st)
  ∧ success st'
    = success st
      + length (filter (λ xlsx, convertible (world st) xlsx) xlsx_files)
  ∧ errors st'
    = errors st
      ++ (convert_error
            <$> filter (λ xlsx, ¬ convertible (world st) xlsx) xlsx_files).
Proof.
  revert st. induction xlsx_files as [|xlsx rest IH]; intros st.
  - cbn. split_and!; [done|lia|by rewrite app_nil_r].
  - cbn [foldl]. destruct (IH (step st xlsx)) as (Hl & Hs & He).
    assert (locked (world (step st xlsx)) = locked (world st)
            ∧ (if convertible (world st) xlsx
               then success (step st xlsx) = success st + 1
                    ∧ errors (step st xlsx) = errors st
               else success (step st xlsx) = success st
                    ∧ errors (step st xlsx)
                      = errors st ++ [convert_error xlsx]))
      as [Hlocked Hstep].
    { destruct (convertible (world st) xlsx) eqn:Hconv.
      - apply convertible_true in Hconv as [[worksheet Hwb] Hfree].
        destruct (step_convertible st xlsx worksheet Hwb Hfree)
          as (w2 & b & Hmerge & ->).
        destruct (merge_world _ _ _ _ _ Hmerge) as [Hlocked _].
        by destruct b.
      - by rewrite (step_not_convertible _ _ Hconv). }
    assert (∀ f, convertible (world (step st xlsx)) f
                 = convertible (world st) f) as Hsame
      by (intros f; by apply convertible_locked).
    rewrite (list_filter_iff _ (λ f, convertible (world st) f)) in Hs
      by (intros f; by rewrite Hsame).
    rewrite (list_filter_iff _ (λ f, ¬ convertible (world st) f)) in He
      by (intros f; by rewrite Hsame).
    rewrite !filter_cons.
    destruct (convertible (world st) xlsx) eqn:Hconv;
      destruct Hstep as [Hs1 He1].
    + rewrite decide_True by done. rewrite decide_False by (by intros []).
      cbn [length]. split_and!; [congruence|lia|congruence].
    + rewrite decide_False by (by intros []).
      rewrite decide_True by (by intros []).
      cbn [length fmap list_fmap]. split_and!; [congruence|lia|].
      rewrite He, He1. by rewrite <- app_assoc.
Qed.

(** X17: the summary of a run over a non-empty list of files counts as
    successes exactly the files whose conversion succeeds and lists one
    error for each of the others, in the order of the files; the outcome of
    a merge never shows in it. *)
Theorem summary_counts_conversions (xlsx_files : list (XlsxFile V))
    (w : World) :
  xlsx_files ≠ [] →
  let summary := (run (Some xlsx_files) w).2 in
  sum_total summary = length xlsx_files
  ∧ sum_success summary
    = length (filter (λ xlsx, convertible w xlsx) xlsx_files)
  ∧ sum_errors summary
    = (λ xlsx, MSG_CONVERT_FAILED ++ name xlsx)
        <$> filter (λ xlsx, ¬ convertible w xlsx) xlsx_files
  ∧ sum_success summary + length (sum_errors summary) = sum_total summary.
Proof.
  intros Hne summary.
  destruct xlsx_files as [|first rest]; [done|].
  destruct (run_counts (first :: rest)
              {| world := w; success := 0; errors := [] |})
    as (_ & Hs & He).
  cbn [world success errors] in Hs, He.
  assert (sum_success summary
          = length (filter (λ xlsx, convertible w xlsx) (first :: rest)))
    as Hsum by exact Hs.
  assert (sum_errors summary
          = convert_error
              <$> filter (λ xlsx, ¬ convertible w xlsx) (first :: rest))
    as Herr by exact He.
  split_and!; [done|done|done|].
  rewrite Hsum, Herr, length_fmap.
  change (sum_total summary) with (length (first :: rest)).
  generalize (first :: rest). intros l.
  induction l as [|x l IH]; [done|].
  rewrite !filter_cons. destruct (convertible w x).
  - rewrite decide_True by done. rewrite decide_False by (by intros []).
    cbn [length]. lia.
  - rewrite decide_False by (by intros []).
    rewrite decide_True by (by intros []).
    cbn [length]. lia.
Qed.

(** X18: the closing message of [main]: "all succeeded" exactly when the
    run had files and every conversion succeeded, "none succeeded" exactly
    when no conversion succeeded, and also when the input directory is
    missing or holds no workbook. *)
Theorem main_verdict_of_run (w : World) :
  main_verdict (run None w).2 = NoneSucceeded
  ∧ main_verdict (run (Some []) w).2 = NoneSucceeded
  ∧ ∀ xlsx_files : list (XlsxFile V), xlsx_files ≠ [] →
      (main_verdict (run (Some xlsx_files) w).2 = AllSucceeded
       ↔ Forall (λ xlsx, convertible w xlsx) xlsx_files)
      ∧ (main_verdict (run (Some xlsx_files) w).2 = NoneSucceeded
         ↔ Forall (λ xlsx, ¬ convertible w xlsx) xlsx_files).
Proof.
  split; [done|]. split; [done|]. intros xlsx_files Hne.
  destruct xlsx_files as [|first rest]; [done|].
  destruct (run_counts (first :: rest)
              {| world := w; success := 0; errors := [] |})
    as (_ & Hs & _).
  cbn [world success] in Hs.
  set (summary := (run (Some (first :: rest)) w).2).
  assert (sum_success summary
          = length (filter (λ xlsx, convertible w xlsx) (first :: rest)))
    as Hsum by exact Hs.
  assert (sum_total summary = length (first :: rest)) as Htot by done.
  clearbody summary. clear Hs.
  pose proof (length_filter (λ xlsx, convertible w xlsx) (first :: rest))
    as Hle.
  rewrite <- length_filter_all, <- length_filter_none, <- Hsum.
  unfold main_verdict. rewrite Htot.
  assert (0 < length (first :: rest)) as Hpos by (simpl; lia).
  destruct (sum_success summary =? length (first :: rest)) eqn:Heq.
  - apply Nat.eqb_eq in Heq.
    rewrite (proj2 (Nat.ltb_lt _ _) Hpos). cbn [andb].
    split; split; [done|done|done|].
    intros H0. rewrite H0 in Hsum. exfalso. lia.
  - apply Nat.eqb_neq in Heq. cbn [andb].
    destruct (0 <? sum_success summary) eqn:Hz.
    + apply Nat.ltb_lt in Hz. split; split; [done|done|done|].
      intros H0. rewrite H0 in Hsum. exfalso. lia.
    + apply Nat.ltb_ge in Hz. split; split; [done|done| |done].
      intros _. rewrite <- Hsum. lia.
Qed.

End RunFacts.

Lemma conversion_failure_recorded_witness :
  let st' := process_file id plain_read_csv plain_to_csv
               (start empty_world) broken_file in
  world st' = empty_world
  ∧ success st' = 0
  ∧ errors st' = [] ++ [MSG_CONVERT_FAILED ++ u "b.xlsx"].
Proof.
  apply (conversion_failure_recorded id plain_read_csv plain_to_csv
           (start empty_world) broken_file).
  left. by eexists.
Defined.

Lemma full_success_witness :
  ∃ df',
    merge_frame
      (match plain_read_csv
               (fill_answer_instruction_column (flatten id question_sheet))
       with Ok df => df | Raise _ => sample_frame end) = Some df'
    ∧ let st' := process_file id plain_read_csv plain_to_csv
                   (start empty_world) question_file in
      files (world st') !! processed_name question_file
      = Some (plain_to_csv df')
      ∧ files (world st') !! temp_name question_file = None
      ∧ files (world st') !! plain_name question_file
        = (∅ : gmap str grid) !! plain_name question_file
      ∧ success st' = 0 + 1
      ∧ errors st' = [].
Proof.
  eexists. split; [reflexivity|].
  eapply (full_success id plain_read_csv plain_to_csv (start empty_world)
            question_file question_sheet).
  - reflexivity.
  - apply not_elem_of_empty.
  - reflexivity.
  - reflexivity.
  - apply not_elem_of_empty.
Defined.

Lemma other_files_untouched_witness :
  let st := start {| files := {[ u "keep.csv" := [[u "k"]] ]};
                     locked := ∅ |} in
  files (world (process_file id plain_read_csv plain_to_csv st
                  question_file)) !! u "keep.csv"
  = files (world st) !! u "keep.csv"
  ∧ locked (world (process_file id plain_read_csv plain_to_csv st
                     question_file))
    = locked (world st).
Proof.
  intros st.
  apply (other_files_untouched id plain_read_csv plain_to_csv st
           question_file (u "keep.csv")); by vm_compute.
Defined.

Lemma summary_counts_conversions_witness :
  let xlsx_files := [question_file; broken_file; notes_file] in
  let summary :=
    (process_all_files id plain_read_csv plain_to_csv (Some xlsx_files)
       locked_world).2 in
  sum_total summary = length xlsx_files
  ∧ sum_success summary
    = length (filter (λ xlsx, convertible locked_world xlsx) xlsx_files)
  ∧ sum_errors summary
    = (λ xlsx, MSG_CONVERT_FAILED ++ name xlsx)
        <$> filter (λ xlsx, ¬ convertible locked_world xlsx) xlsx_files
  ∧ sum_success summary + length (sum_errors summary) = sum_total summary.
Proof.
  apply (summary_counts_conversions id plain_read_csv plain_to_csv
           [question_file; broken_file; notes_file] locked_world).
  done.
Defined.

Lemma main_verdict_of_run_witness :
  main_verdict
    (process_all_files id plain_read_csv plain_to_csv
       (Some [question_file; notes_file]) locked_world).2 = AllSucceeded
  ∧ main_verdict
      (process_all_files id plain_read_csv plain_to_csv
         (Some [broken_file]) locked_world).2 = NoneSucceeded.
Proof.
  destruct (main_verdict_of_run id plain_read_csv plain_to_csv locked_world)
    as (_ & _ & Hrun).
  split.
  - apply (Hrun [question_file; notes_file]); [done|].
    repeat constructor.
  - apply (Hrun [broken_file]); [done|].
    repeat constructor; by intros [].
Defined.
